(** * opensky-ts: token lifecycle and authenticated requests

    A shallow embedding of [src/opensky-api.ts] (class [OpenSkyClient] and the
    legacy function [getAccessToken]).

    Modelling choices.
    - A JavaScript string is a [string] whose characters are read as the code
      points U+0000..U+00FF.  On that range [String.prototype.trim] removes
      exactly the characters 9..13, 32 and 160, and writing a string to a file
      as UTF-8 and reading it back returns the same string.
    - [string | undefined] and [string | null] are [option string]; the
      conditions [if (x)] and [!x] on such a value are [truthy x] and
      [negb (truthy x)].
    - The client talks to its surroundings through the operations of [Op]:
      the fields of [this], the file [.access_token], the two HTTP endpoints
      and the console.  A method is a finite tree of such operations
      ([Prog]); [run] executes a whole tree, [step] one operation of it.
    - The two HTTP servers are functions of the history of events and of the
      request ([Env]); every network request, file mutation and console line
      is logged, most recent first, in the [trace] of the [World].
    - The value of [data.access_token] is a string, as the return type
      [Promise<string>] of [fetchAccessToken] declares. *)

From Stdlib Require Import String Ascii List NArith Bool Lia DecimalString.
From Stdlib Require Import DecimalPos DecimalN.
Import ListNotations.
Open Scope string_scope.

(** ** JavaScript strings *)

Module JS.

(** WhiteSpace and LineTerminator code points below U+0100. *)
Definition isWhiteSpace (c : ascii) : bool :=
  let n := N_of_ascii c in
  ((9 <=? n) && (n <=? 13) || (n =? 32) || (n =? 160))%N.

Fixpoint trimStart (s : string) : string :=
  match s with
  | EmptyString => EmptyString
  | String c s' => if isWhiteSpace c then trimStart s' else s
  end.

Fixpoint trimEnd (s : string) : string :=
  match s with
  | EmptyString => EmptyString
  | String c s' =>
      match trimEnd s' with
      | EmptyString => if isWhiteSpace c then EmptyString else String c EmptyString
      | t => String c t
      end
  end.

(** [s.trim()] *)
Definition trim (s : string) : string := trimEnd (trimStart s).

(** ToBoolean on [string | undefined | null]. *)
Definition truthy (v : option string) : bool :=
  match v with
  | Some (String _ _) => true
  | _ => false
  end.

(** Number of bytes of the UTF-8 encoding. *)
Fixpoint byteLength (s : string) : N :=
  match s with
  | EmptyString => 0
  | String c s' => (if (N_of_ascii c <? 128)%N then 1 else 2) + byteLength s'
  end%N.

(** [`${n}`] for a non-negative integer [n]. *)
Definition numberToString (n : N) : string :=
  NilZero.string_of_uint (N.to_uint n).

End JS.

(** ** HTTP *)

(** A parsed JSON value; the client returns it as it is. *)
#[local] Unset Elimination Schemes.
Inductive Json : Type :=
| JNull
| JBool (b : bool)
| JNumber (n : N)
| JString (s : string)
| JArray (items : list Json)
| JObject (fields : list (string * Json)).
#[local] Set Elimination Schemes.

(** A [Response]: [json] is what [await res.json()] gives, [None] when the
    body does not parse.  For the token endpoint [B] is [string], the
    [access_token] field of the parsed body. *)
Record Response (B : Type) : Type := mkResponse {
  status : N;
  statusText : string;
  json : option B
}.
Arguments mkResponse {B} _ _ _.
Arguments status {B} _.
Arguments statusText {B} _.
Arguments json {B} _.

(** [res.ok] *)
Definition ok {B} (res : Response B) : bool :=
  ((200 <=? status res) && (status res <=? 299))%N.

(** The promise returned by [fetch]. *)
Inductive FetchResult (B : Type) : Type :=
| Rejected
| Resolved (res : Response B).
Arguments Rejected {B}.
Arguments Resolved {B} _.

(** ** Exceptions *)

Inductive Exn : Type :=
| MissingCredentials
| TokenRequestFailed (status : N) (statusText : string)
| ApiRequestFailedAfterRefresh (status : N)
| ApiRequestFailed (status : N)
| FetchRejected
| JsonRejected
| ENOENT.

(** The message of the [Error] objects the client creates itself. *)
Definition message (e : Exn) : option string :=
  match e with
  | MissingCredentials =>
      Some "Client ID or Client Secret is not defined in environment variables."
  | TokenRequestFailed s t =>
      Some ("Failed to retrieve access token: " ++ JS.numberToString s ++ " " ++ t)
  | ApiRequestFailedAfterRefresh s =>
      Some ("API request failed after token refresh: " ++ JS.numberToString s)
  | ApiRequestFailed s =>
      Some ("API request failed: " ++ JS.numberToString s)
  | _ => None
  end.

Inductive Result (A : Type) : Type :=
| Ok (a : A)
| Err (e : Exn).
Arguments Ok {A} _.
Arguments Err {A} _.

(** ** Operations and programs *)

Inductive Op : Type -> Type :=
| GetClientId : Op (option string)
| GetClientSecret : Op (option string)
| GetAccessToken : Op (option string)
| SetAccessToken (t : string) : Op unit
| ExistsSync : Op bool
| StatSyncSize : Op N
| ReadFileSync : Op string
| WriteFileSync (data : string) : Op unit
| UnlinkSync : Op unit
| FetchToken (client_id client_secret : string) : Op (FetchResult string)
| FetchResource (url token : string) : Op (FetchResult Json)
| ConsoleInfo (msg : string) : Op unit
| ConsoleWarn (msg : string) : Op unit.

Inductive Prog (A : Type) : Type :=
| Ret (a : A)
| Throw (e : Exn)
| Vis {X : Type} (op : Op X) (k : X -> Prog A).
Arguments Ret {A} _.
Arguments Throw {A} _.
Arguments Vis {A X} _ _.

Fixpoint bind {A B} (p : Prog A) (f : A -> Prog B) : Prog B :=
  match p with
  | Ret a => f a
  | Throw e => Throw e
  | Vis op k => Vis op (fun x => bind (k x) f)
  end.

Definition call {X} (op : Op X) : Prog X := Vis op Ret.

Declare Scope prog_scope.
Delimit Scope prog_scope with prog.
Notation "x <- p ;; q" := (bind p (fun x => q))
  (at level 61, p at next level, right associativity) : prog_scope.
Notation "p ;; q" := (bind p (fun _ => q))
  (at level 61, right associativity) : prog_scope.
Open Scope prog_scope.

(** ** The client, the world around it, and the interpreter *)

Record Client : Type := mkClient {
  clientId : option string;
  clientSecret : option string;
  accessToken : option string
}.

(** [new OpenSkyClient(clientId, clientSecret)] *)
Definition newClient (id secret : option string) : Client :=
  mkClient id secret None.

Inductive Event : Type :=
| TokenPost (client_id client_secret : string)
| ResourceGet (url token : string)
| Wrote (data : string)
| Unlinked
| Logged (msg : string).

(** [token_file] is the content of [.access_token], [None] when the file does
    not exist. *)
Record World : Type := mkWorld {
  token_file : option string;
  trace : list Event
}.

Record Env : Type := mkEnv {
  token_endpoint : list Event -> string -> string -> FetchResult string;
  resource_endpoint : list Event -> string -> string -> FetchResult Json
}.

Definition log (e : Event) (w : World) : World :=
  mkWorld (token_file w) (e :: trace w).

Definition handle (env : Env) {X} (op : Op X) (c : Client) (w : World)
  : Result X * Client * World :=
  match op in Op X return Result X * Client * World with
  | GetClientId => (Ok (clientId c), c, w)
  | GetClientSecret => (Ok (clientSecret c), c, w)
  | GetAccessToken => (Ok (accessToken c), c, w)
  | SetAccessToken t => (Ok tt, mkClient (clientId c) (clientSecret c) (Some t), w)
  | ExistsSync =>
      (Ok (match token_file w with Some _ => true | None => false end), c, w)
  | StatSyncSize =>
      (match token_file w with
       | Some s => Ok (JS.byteLength s)
       | None => Err ENOENT
       end, c, w)
  | ReadFileSync =>
      (match token_file w with
       | Some s => Ok s
       | None => Err ENOENT
       end, c, w)
  | WriteFileSync data => (Ok tt, c, mkWorld (Some data) (Wrote data :: trace w))
  | UnlinkSync =>
      match token_file w with
      | Some _ => (Ok tt, c, mkWorld None (Unlinked :: trace w))
      | None => (Err ENOENT, c, w)
      end
  | FetchToken id secret =>
      (Ok (token_endpoint env (trace w) id secret), c, log (TokenPost id secret) w)
  | FetchResource url token =>
      (Ok (resource_endpoint env (trace w) url token), c, log (ResourceGet url token) w)
  | ConsoleInfo msg => (Ok tt, c, log (Logged msg) w)
  | ConsoleWarn msg => (Ok tt, c, log (Logged msg) w)
  end.

Fixpoint run (env : Env) {A} (p : Prog A) (c : Client) (w : World)
  : Result A * Client * World :=
  match p with
  | Ret a => (Ok a, c, w)
  | Throw e => (Err e, c, w)
  | Vis op k =>
      match handle env op c w with
      | (Ok x, c', w') => run env (k x) c' w'
      | (Err e, c', w') => (Err e, c', w')
      end
  end.

(** One operation at a time: the configurations a crash can leave behind. *)
Definition Config (A : Type) : Type := (Prog A * Client * World)%type.

Definition step (env : Env) {A} (cfg : Config A) : Config A :=
  match cfg with
  | (Vis op k, c, w) =>
      match handle env op c w with
      | (Ok x, c', w') => (k x, c', w')
      | (Err e, c', w') => (Throw e, c', w')
      end
  | _ => cfg
  end.

Fixpoint steps (env : Env) {A} (n : nat) (cfg : Config A) : Config A :=
  match n with
  | O => cfg
  | S n' => steps env n' (step env cfg)
  end.

(** ** The methods of [OpenSkyClient] *)

(** [await res.json()] *)
Definition json_of {B} (res : Response B) : Prog B :=
  match json res with
  | Some data => Ret data
  | None => Throw JsonRejected
  end.

(** [await fetch(...)] *)
Definition await {B} (r : FetchResult B) : Prog (Response B) :=
  match r with
  | Resolved res => Ret res
  | Rejected => Throw FetchRejected
  end.

Definition fetchAccessToken : Prog string :=
  id <- call GetClientId ;;
  secret <- call GetClientSecret ;;
  match id, secret with
  | Some (String a id'), Some (String b secret') =>
      r <- call (FetchToken (String a id') (String b secret')) ;;
      res <- await r ;;
      if negb (ok res) then Throw (TokenRequestFailed (status res) (statusText res))
      else json_of res
  | _, _ => Throw MissingCredentials
  end.

Definition loadTokenFromFile : Prog (option string) :=
  e <- call ExistsSync ;;
  if e then
    size <- call StatSyncSize ;;
    if (0 <? size)%N then
      s <- call ReadFileSync ;;
      Ret (Some (JS.trim s))
    else Ret None
  else Ret None.

Definition saveTokenToFile (token : string) : Prog unit :=
  call (WriteFileSync token).

Definition clearTokenFile : Prog unit :=
  e <- call ExistsSync ;;
  if e then call UnlinkSync else Ret tt.

(** Lines 136-142 of [ensureValidToken]: fetch, keep, save. *)
Definition fetchNewToken : Prog string :=
  call (ConsoleInfo "Fetching new access token...") ;;
  token <- fetchAccessToken ;;
  call (SetAccessToken token) ;;
  saveTokenToFile token ;;
  call (ConsoleInfo "Access Token retrieved from API and saved to file") ;;
  Ret token.

Definition ensureValidToken : Prog string :=
  current <- call GetAccessToken ;;
  if negb (JS.truthy current) then
    tokenFromFile <- loadTokenFromFile ;;
    match tokenFromFile with
    | Some (String a t) =>
        call (SetAccessToken (String a t)) ;;
        call (ConsoleInfo "Access Token loaded from file") ;;
        Ret (String a t)
    | _ => fetchNewToken
    end
  else fetchNewToken.

Definition refreshToken : Prog string :=
  call (ConsoleWarn "Token expired or invalid. Refreshing token...") ;;
  clearTokenFile ;;
  token <- fetchAccessToken ;;
  call (SetAccessToken token) ;;
  saveTokenToFile token ;;
  call (ConsoleInfo "New access token obtained") ;;
  Ret token.

(** [await fetch(url, { headers: { Authorization: `Bearer ${token}` } })] *)
Definition get (url token : string) : Prog (Response Json) :=
  r <- call (FetchResource url token) ;;
  await r.

Definition makeAuthenticatedRequest (url : string) : Prog Json :=
  token <- ensureValidToken ;;
  res <- get url token ;;
  if (status res =? 401)%N then
    token' <- refreshToken ;;
    retryRes <- get url token' ;;
    if negb (ok retryRes) then Throw (ApiRequestFailedAfterRefresh (status retryRes))
    else json_of retryRes
  else if negb (ok res) then Throw (ApiRequestFailed (status res))
  else json_of res.

(** The legacy function [getAccessToken(clientId, clientSecret)]: the client
    it creates is dropped when it returns. *)
Definition getAccessToken (env : Env) (id secret : option string) (w : World)
  : Result string * World :=
  let '(r, _, w') := run env ensureValidToken (newClient id secret) w in (r, w').

(** ** What the trace says *)

(** Number of POSTs to the authentication endpoint. *)
Fixpoint token_posts (tr : list Event) : nat :=
  match tr with
  | [] => 0
  | TokenPost _ _ :: tr' => S (token_posts tr')
  | _ :: tr' => token_posts tr'
  end.

(** The GETs to the resource server, most recent first. *)
Fixpoint resource_gets (tr : list Event) : list (string * string) :=
  match tr with
  | [] => []
  | ResourceGet url token :: tr' => (url, token) :: resource_gets tr'
  | _ :: tr' => resource_gets tr'
  end.

(** Number of writes of the token file. *)
Fixpoint file_writes (tr : list Event) : nat :=
  match tr with
  | [] => 0
  | Wrote _ :: tr' => S (file_writes tr')
  | _ :: tr' => file_writes tr'
  end.

(** What [loadTokenFromFile] returns in a world. *)
Definition stored_token (w : World) : option string :=
  match token_file w with
  | Some s => if (0 <? JS.byteLength s)%N then Some (JS.trim s) else None
  | None => None
  end.

(** The durable record mirrors the memory of the client: what a restart
    would load is nothing usable, or the in-memory token (trimmed). *)
Definition mirrors (c : Client) (w : World) : Prop :=
  JS.truthy (stored_token w) = false \/
  exists m, accessToken c = Some m /\ stored_token w = Some (JS.trim m).

(** The state "Invalidated" as the specification describes it. *)
Definition invalidated (c : Client) (w : World) : Prop :=
  token_file w = None /\ accessToken c = None.

Definition setToken (c : Client) (t : string) : Client :=
  mkClient (clientId c) (clientSecret c) (Some t).

(** ** What the methods compute *)

(** The credentials [fetchAccessToken] sends, when both are truthy. *)
Definition credentials (c : Client) : option (string * string) :=
  match clientId c, clientSecret c with
  | Some (String a id'), Some (String b secret') =>
      Some (String a id', String b secret')
  | _, _ => None
  end.

(** What [fetchAccessToken] makes of the answer of the token endpoint. *)
Definition granted (r : FetchResult string) : Result string :=
  match r with
  | Rejected => Err FetchRejected
  | Resolved res =>
      if ok res then
        match json res with Some t => Ok t | None => Err JsonRejected end
      else Err (TokenRequestFailed (status res) (statusText res))
  end.

(** The world after [clearTokenFile]. *)
Definition cleared (w : World) : World :=
  match token_file w with
  | Some _ => mkWorld None (Unlinked :: trace w)
  | None => w
  end.

(** Keep the token [t] and save it, then log [msg]. *)
Definition stored (t msg : string) (c : Client) (w : World) : Client * World :=
  (setToken c t, log (Logged msg) (mkWorld (Some t) (Wrote t :: trace w))).

(** The program a result stands for. *)
Definition final {A} (r : Result A) : Prog A :=
  match r with Ok a => Ret a | Err e => Throw e end.

(** ** Query strings *)

(** [URLSearchParams]: the list of pairs, in the order of the calls of
    [append], and its [toString()], the application/x-www-form-urlencoded
    serializer: the bytes of the UTF-8 encoding, a space as [+], the ASCII
    letters and digits and [*-._] as they are, every other byte as [%XX]. *)
Module URLSearchParams.

Definition t : Type := list (string * string).

Definition append (ps : t) (name value : string) : t :=
  (ps ++ [(name, value)])%list.

Definition hexDigit (n : N) : ascii :=
  nth (N.to_nat n) (list_ascii_of_string "0123456789ABCDEF") "0"%char.

Definition percentEncode (b : N) : string :=
  String "%" (String (hexDigit (b / 16)) (String (hexDigit (b mod 16)) EmptyString)).

Definition unreserved (b : N) : bool :=
  ((b =? 42) || (b =? 45) || (b =? 46) || (b =? 95)
   || (48 <=? b) && (b <=? 57)
   || (65 <=? b) && (b <=? 90)
   || (97 <=? b) && (b <=? 122))%N.

Definition encodeByte (b : N) : string :=
  if (b =? 32)%N then "+"
  else if unreserved b then String (ascii_of_N b) EmptyString
  else percentEncode b.

(** The UTF-8 bytes of a code point below U+0100. *)
Definition utf8 (c : ascii) : list N :=
  let n := N_of_ascii c in
  if (n <? 128)%N then [n] else [192 + n / 64; 128 + n mod 64]%N.

Fixpoint encode (s : string) : string :=
  match s with
  | EmptyString => EmptyString
  | String c s' => String.concat "" (map encodeByte (utf8 c)) ++ encode s'
  end.

Definition encodePair (p : string * string) : string :=
  encode (fst p) ++ "=" ++ encode (snd p).

Definition toString (ps : t) : string :=
  String.concat "&" (map encodePair ps).

End URLSearchParams.

(** ** The endpoint methods *)

(** A JavaScript [number], as far as the client uses it: the value [0], the
    test [if (n)] and the decimal rendering of [n.toString()] and [`${n}`]. *)
Record NumberOps (number : Type) : Type := mkNumberOps {
  num_zero : number;
  num_truthy : number -> bool;
  num_toString : number -> string
}.
Arguments mkNumberOps {number} _ _ _.
Arguments num_zero {number} _.
Arguments num_truthy {number} _ _.
Arguments num_toString {number} _ _.

(** The non-negative integers a [number] holds exactly; the rendering is that
    of [toString()] below 10^21, where the exponent notation starts. *)
Definition integerOps : NumberOps N :=
  mkNumberOps 0%N (fun n => negb (n =? 0)%N) JS.numberToString.

(** [T | T[]] *)
Inductive OneOrMany (A : Type) : Type :=
| One (a : A)
| Many (items : list A).
Arguments One {A} _.
Arguments Many {A} _.

(** [if (v)] for [v : T | T[] | undefined]: an array is always truthy. *)
Definition truthyOneOrMany {A} (truthyA : A -> bool) (v : option (OneOrMany A)) : bool :=
  match v with
  | Some (One a) => truthyA a
  | Some (Many _) => true
  | None => false
  end.

Definition truthyString (s : string) : bool := JS.truthy (Some s).

Module GetAllStatesOptions.
Record t (number : Type) : Type := mk {
  time : option number;
  icao24 : option (OneOrMany string);
  lamin : option number;
  lomin : option number;
  lamax : option number;
  lomax : option number;
  extended : option bool
}.
Arguments mk {number} _ _ _ _ _ _ _.
Arguments time {number} _.
Arguments icao24 {number} _.
Arguments lamin {number} _.
Arguments lomin {number} _.
Arguments lamax {number} _.
Arguments lomax {number} _.
Arguments extended {number} _.
End GetAllStatesOptions.

Module GetOwnStatesOptions.
Record t (number : Type) : Type := mk {
  time : option number;
  icao24 : option (OneOrMany string);
  serials : option (OneOrMany number)
}.
Arguments mk {number} _ _ _.
Arguments time {number} _.
Arguments icao24 {number} _.
Arguments serials {number} _.
End GetOwnStatesOptions.

Section Endpoints.
Context {number : Type} (num : NumberOps number).

(** [options?.field] *)
Definition optional {O A} (options : option O) (field : O -> option A) : option A :=
  match options with
  | Some o => field o
  | None => None
  end.

(** [items.forEach(item => params.append(name, item))] *)
Definition appendEach (ps : URLSearchParams.t) (name : string) (items : list string)
  : URLSearchParams.t :=
  fold_left (fun acc item => URLSearchParams.append acc name item) items ps.

(** [if (options?.time) params.append('time', options.time.toString())] *)
Definition appendTime (ps : URLSearchParams.t) (time : option number)
  : URLSearchParams.t :=
  match time with
  | Some n =>
      if num_truthy num n then URLSearchParams.append ps "time" (num_toString num n)
      else ps
  | None => ps
  end.

(** The block [if (options?.icao24) { ... }] *)
Definition appendIcao24 (ps : URLSearchParams.t) (icao24 : option (OneOrMany string))
  : URLSearchParams.t :=
  if truthyOneOrMany truthyString icao24 then
    match icao24 with
    | Some (Many items) => appendEach ps "icao24" items
    | Some (One icao) => URLSearchParams.append ps "icao24" icao
    | None => ps
    end
  else ps.

(** [if (options?.x !== undefined) params.append(name, options.x.toString())] *)
Definition appendDefined (ps : URLSearchParams.t) (name : string) (x : option number)
  : URLSearchParams.t :=
  match x with
  | Some n => URLSearchParams.append ps name (num_toString num n)
  | None => ps
  end.

(** The block [if (options?.serials) { ... }] *)
Definition appendSerials (ps : URLSearchParams.t) (serials : option (OneOrMany number))
  : URLSearchParams.t :=
  if truthyOneOrMany (num_truthy num) serials then
    match serials with
    | Some (Many items) => appendEach ps "serials" (map (num_toString num) items)
    | Some (One serial) => URLSearchParams.append ps "serials" (num_toString num serial)
    | None => ps
    end
  else ps.

(** [if (queryString) url += `?${queryString}`] *)
Definition withQuery (url : string) (ps : URLSearchParams.t) : string :=
  let queryString := URLSearchParams.toString ps in
  if truthyString queryString then url ++ "?" ++ queryString else url.

Definition getAllStates_params (options : option (GetAllStatesOptions.t number))
  : URLSearchParams.t :=
  let params : URLSearchParams.t := [] in
  let params := appendTime params (optional options GetAllStatesOptions.time) in
  let params := appendIcao24 params (optional options GetAllStatesOptions.icao24) in
  let params := appendDefined params "lamin" (optional options GetAllStatesOptions.lamin) in
  let params := appendDefined params "lomin" (optional options GetAllStatesOptions.lomin) in
  let params := appendDefined params "lamax" (optional options GetAllStatesOptions.lamax) in
  let params := appendDefined params "lomax" (optional options GetAllStatesOptions.lomax) in
  match optional options GetAllStatesOptions.extended with
  | Some true => URLSearchParams.append params "extended" "1"
  | _ => params
  end.

Definition getAllStates_url (options : option (GetAllStatesOptions.t number)) : string :=
  withQuery "https://opensky-network.org/api/states/all" (getAllStates_params options).

Definition getAllStates (options : option (GetAllStatesOptions.t number)) : Prog Json :=
  makeAuthenticatedRequest (getAllStates_url options).

Definition getOwnStates_params (options : option (GetOwnStatesOptions.t number))
  : URLSearchParams.t :=
  let params : URLSearchParams.t := [] in
  let params := appendTime params (optional options GetOwnStatesOptions.time) in
  let params := appendIcao24 params (optional options GetOwnStatesOptions.icao24) in
  appendSerials params (optional options GetOwnStatesOptions.serials).

Definition getOwnStates_url (options : option (GetOwnStatesOptions.t number)) : string :=
  withQuery "https://opensky-network.org/api/states/own" (getOwnStates_params options).

Definition getOwnStates (options : option (GetOwnStatesOptions.t number)) : Prog Json :=
  makeAuthenticatedRequest (getOwnStates_url options).

Definition getFlightsInInterval_url (begin end_ : number) : string :=
  "https://opensky-network.org/api/flights/all?begin=" ++ num_toString num begin
  ++ "&end=" ++ num_toString num end_.

Definition getFlightsInInterval (begin end_ : number) : Prog Json :=
  makeAuthenticatedRequest (getFlightsInInterval_url begin end_).

Definition getFlightsByAircraft_url (icao24 : string) (begin end_ : number) : string :=
  "https://opensky-network.org/api/flights/aircraft?icao24=" ++ icao24
  ++ "&begin=" ++ num_toString num begin ++ "&end=" ++ num_toString num end_.

Definition getFlightsByAircraft (icao24 : string) (begin end_ : number) : Prog Json :=
  makeAuthenticatedRequest (getFlightsByAircraft_url icao24 begin end_).

Definition getTrackByAircraft_url (icao24 : string) (time : option number) : string :=
  let timeParam := match time with Some t => t | None => num_zero num end in
  "https://opensky-network.org/api/tracks?icao24=" ++ icao24
  ++ "&time=" ++ num_toString num timeParam.

Definition getTrackByAircraft (icao24 : string) (time : option number) : Prog Json :=
  makeAuthenticatedRequest (getTrackByAircraft_url icao24 time).

End Endpoints.

Definition getArrivalsByAirport_url (airport begin end_ : string) : string :=
  "https://opensky-network.org/api/flights/arrival?airport=" ++ airport
  ++ "&begin=" ++ begin ++ "&end=" ++ end_.

Definition getArrivalsByAirport (airport begin end_ : string) : Prog Json :=
  makeAuthenticatedRequest (getArrivalsByAirport_url airport begin end_).

Definition getDeparturesByAirport_url (airport begin end_ : string) : string :=
  "https://opensky-network.org/api/flights/departure?airport=" ++ airport
  ++ "&begin=" ++ begin ++ "&end=" ++ end_.

Definition getDeparturesByAirport (airport begin end_ : string) : Prog Json :=
  makeAuthenticatedRequest (getDeparturesByAirport_url airport begin end_).

(** ** The legacy functions *)

(** What the legacy functions throw: their own two errors, or what [fetch] and
    [res.json()] throw. *)
Inductive LegacyExn : Type :=
| ArrivalFailed (status : N)
| DepartureFailed (status : N)
| Uncaught (e : Exn).

Definition legacyMessage (e : LegacyExn) : option string :=
  match e with
  | ArrivalFailed s =>
      Some ("Failed to retrieve arrival flights: " ++ JS.numberToString s)
  | DepartureFailed s =>
      Some ("Failed to retrieve departure flights: " ++ JS.numberToString s)
  | Uncaught e => message e
  end.

(** One [fetch] with a bearer token, outside any client; then [res.ok] and
    [res.json()]. *)
Definition legacyFetch (env : Env) (failed : N -> LegacyExn) (url token : string)
  (w : World) : (LegacyExn + Json) * World :=
  (match resource_endpoint env (trace w) url token with
   | Rejected => inl (Uncaught FetchRejected)
   | Resolved res =>
       if negb (ok res) then inl (failed (status res))
       else match json res with
            | Some data => inr data
            | None => inl (Uncaught JsonRejected)
            end
   end, log (ResourceGet url token) w).

Definition getArrivalByAirport (env : Env) (airport begin end_ token : string)
  (w : World) : (LegacyExn + Json) * World :=
  legacyFetch env ArrivalFailed (getArrivalsByAirport_url airport begin end_) token w.

(** [`Bearer ${token}`] for [token : string | undefined] *)
Definition bearer (token : option string) : string :=
  match token with
  | Some t => t
  | None => "undefined"
  end.

Definition getDepartureByAirport (env : Env) (airport begin end_ : string)
  (token : option string) (w : World) : (LegacyExn + Json) * World :=
  legacyFetch env DepartureFailed (getDeparturesByAirport_url airport begin end_)
    (bearer token) w.

(** The errors of the token side. *)
Definition token_error (e : Exn) : Prop :=
  match e with
  | MissingCredentials | FetchRejected | JsonRejected => True
  | TokenRequestFailed s _ => ~ (200 <= s <= 299)%N
  | _ => False
  end.

(** The errors [fetchAccessToken] throws: they come before the assignment
    of [this.accessToken]. *)
Definition fetch_error (e : Exn) : Prop :=
  match e with
  | MissingCredentials | TokenRequestFailed _ _ | FetchRejected | JsonRejected => True
  | _ => False
  end.

(** The three separators of a URL with a query. *)
Definition separator (c : ascii) : Prop :=
  c = "?"%char \/ c = "&"%char \/ c = "="%char.

(** A property of the world that holds before every operation of a program
    and after the last one. *)
Fixpoint throughout (env : Env) (Q : World -> Prop) {A} (p : Prog A)
  (c : Client) (w : World) : Prop :=
  Q w /\
  match p with
  | Vis op k =>
      match handle env op c w with
      | (Ok x, c', w') => throughout env Q (k x) c' w'
      | (Err _, _, w') => Q w'
      end
  | _ => True
  end.

(** Occurrences of a character in a string. *)
Fixpoint occurrences (c : ascii) (s : string) : nat :=
  match s with
  | EmptyString => 0
  | String d s' => (if Ascii.eqb c d then 1 else 0) + occurrences c s'
  end.

(** ** Test worlds *)

Definition emptyWorld : World := mkWorld None [].
Definition fileWorld (s : string) : World := mkWorld (Some s) [].

(** A token endpoint that always grants the token [t], and a resource server
    that accepts only the bearer token [good]. *)
Definition grantEnv (t good : string) : Env :=
  mkEnv (fun _ _ _ => Resolved (mkResponse 200 "OK" (Some t)))
        (fun _ _ token =>
           if String.eqb token good
           then Resolved (mkResponse 200 "OK" (Some (JArray [])))
           else Resolved (mkResponse 401 "Unauthorized" None)).

(** A token endpoint that is down, in front of the same resource server. *)
Definition downEnv (good : string) : Env :=
  mkEnv (fun _ _ _ => Resolved (mkResponse 503 "Service Unavailable" None))
        (resource_endpoint (grantEnv "" good)).

(** A resource server that answers every request with [code]. *)
Definition statusEnv (t : string) (code : N) : Env :=
  mkEnv (token_endpoint (grantEnv t t))
        (fun _ _ _ => Resolved (mkResponse code "" None)).

Definition alice : Client := newClient (Some "id") (Some "secret").
Definition anonymous : Client := newClient None None.

(** ** Basic facts *)

Section Run.
Variable env : Env.

Lemma run_bind {A B} (p : Prog A) (f : A -> Prog B) c w :
  run env (bind p f) c w =
  match run env p c w with
  | (Ok a, c', w') => run env (f a) c' w'
  | (Err e, c', w') => (Err e, c', w')
  end.
Proof.
  revert c w. induction p as [a | e | X op k IH]; intros c w; simpl; try reflexivity.
  destruct (handle env op c w) as [[[x | e] c'] w']; [apply IH | reflexivity].
Qed.

Lemma run_call {X} (op : Op X) c w : run env (call op) c w = handle env op c w.
Proof.
  unfold call. simpl. destruct (handle env op c w) as [[[x | e] c'] w']; reflexivity.
Qed.

Lemma steps_Ret {A} n (a : A) c w : steps env n (Ret a, c, w) = (Ret a, c, w).
Proof. induction n; simpl; auto. Qed.

Lemma steps_Throw {A} n e c w : steps env n (@Throw A e, c, w) = (Throw e, c, w).
Proof. induction n; simpl; auto. Qed.

End Run.

(** ** Strings *)

Module JSFacts.
Import JS.

Lemma byteLength_pos s :
  (0 <? byteLength s)%N = match s with EmptyString => false | String _ _ => true end.
Proof.
  destruct s as [| c s']; simpl; [reflexivity |].
  apply N.ltb_lt. destruct (N_of_ascii c <? 128)%N; lia.
Qed.

Lemma trimEnd_idem s : trimEnd (trimEnd s) = trimEnd s.
Proof.
  induction s as [| c s' IH]; simpl; [reflexivity |].
  destruct (trimEnd s') as [| d t] eqn:E.
  - destruct (isWhiteSpace c) eqn:W; simpl; [reflexivity | now rewrite W].
  - change (trimEnd (String c (String d t))) with
      (match trimEnd (String d t) with
       | EmptyString => if isWhiteSpace c then EmptyString else String c EmptyString
       | u => String c u
       end).
    now rewrite IH.
Qed.

Lemma trimStart_head s :
  trimStart s = EmptyString \/
  exists c r, trimStart s = String c r /\ isWhiteSpace c = false.
Proof.
  induction s as [| c s' IH]; simpl; [now left |].
  destruct (isWhiteSpace c) eqn:W; [exact IH | right; eauto].
Qed.

Lemma trimEnd_head c r :
  isWhiteSpace c = false -> exists r', trimEnd (String c r) = String c r'.
Proof.
  intros W. simpl. destruct (trimEnd r); rewrite ?W; eauto.
Qed.

Lemma trim_idem s : trim (trim s) = trim s.
Proof.
  unfold trim. destruct (trimStart_head s) as [E | (c & r & E & W)]; rewrite E.
  - reflexivity.
  - destruct (trimEnd_head c r W) as (r' & E'). rewrite E'.
    simpl trimStart. rewrite W, <- E'. apply trimEnd_idem.
Qed.

Lemma trim_empty : trim EmptyString = EmptyString.
Proof. reflexivity. Qed.

End JSFacts.

(** ** The methods, one by one *)

Section Methods.
Variable env : Env.

Lemma run_fetchAccessToken c w :
  run env fetchAccessToken c w =
  match credentials c with
  | None => (Err MissingCredentials, c, w)
  | Some (id, secret) =>
      (granted (token_endpoint env (trace w) id secret), c,
       log (TokenPost id secret) w)
  end.
Proof.
  unfold fetchAccessToken, credentials. simpl.
  destruct (clientId c) as [[| a id'] |]; try reflexivity;
    destruct (clientSecret c) as [[| b secret'] |]; try reflexivity.
  simpl. destruct (token_endpoint env (trace w) _ _) as [| res]; simpl;
    [reflexivity |].
  destruct (ok res); simpl; [| reflexivity].
  unfold json_of. destruct (json res); reflexivity.
Qed.

Lemma run_loadTokenFromFile c w :
  run env loadTokenFromFile c w = (Ok (stored_token w), c, w).
Proof.
  unfold loadTokenFromFile, stored_token.
  destruct w as [[s |] tr]; simpl; [| reflexivity].
  destruct (0 <? JS.byteLength s)%N; reflexivity.
Qed.

Lemma run_saveTokenToFile t c w :
  run env (saveTokenToFile t) c w = (Ok tt, c, mkWorld (Some t) (Wrote t :: trace w)).
Proof. reflexivity. Qed.

Lemma run_clearTokenFile c w :
  run env clearTokenFile c w = (Ok tt, c, cleared w).
Proof.
  unfold clearTokenFile, cleared.
  destruct w as [[s |] tr]; reflexivity.
Qed.

Lemma token_file_cleared w : token_file (cleared w) = None.
Proof. unfold cleared. destruct (token_file w) eqn:E; simpl; auto. Qed.

Lemma run_fetchNewToken c w :
  run env fetchNewToken c w =
  let w0 := log (Logged "Fetching new access token...") w in
  match run env fetchAccessToken c w0 with
  | (Ok t, c1, w1) =>
      let '(c2, w2) :=
        stored t "Access Token retrieved from API and saved to file" c1 w1 in
      (Ok t, c2, w2)
  | (Err e, c1, w1) => (Err e, c1, w1)
  end.
Proof.
  unfold fetchNewToken. rewrite run_bind, run_call. cbn [handle].
  rewrite run_bind.
  destruct (run env fetchAccessToken c _) as [[[t | e] c1] w1]; reflexivity.
Qed.

Lemma run_refreshToken c w :
  run env refreshToken c w =
  let w0 := cleared (log (Logged "Token expired or invalid. Refreshing token...") w) in
  match run env fetchAccessToken c w0 with
  | (Ok t, c1, w1) =>
      let '(c2, w2) := stored t "New access token obtained" c1 w1 in
      (Ok t, c2, w2)
  | (Err e, c1, w1) => (Err e, c1, w1)
  end.
Proof.
  unfold refreshToken. rewrite run_bind, run_call. cbn [handle].
  rewrite run_bind, run_clearTokenFile. rewrite run_bind.
  destruct (run env fetchAccessToken c _) as [[[t | e] c1] w1]; reflexivity.
Qed.

Lemma run_ensureValidToken c w :
  run env ensureValidToken c w =
  if JS.truthy (accessToken c) then run env fetchNewToken c w
  else
    match stored_token w with
    | Some (String a t) =>
        (Ok (String a t), setToken c (String a t),
         log (Logged "Access Token loaded from file") w)
    | _ => run env fetchNewToken c w
    end.
Proof.
  unfold ensureValidToken. rewrite run_bind, run_call. cbn [handle].
  destruct (JS.truthy (accessToken c)); simpl negb; cbv iota; [reflexivity |].
  rewrite run_bind, run_loadTokenFromFile.
  destruct (stored_token w) as [[| a t] |]; reflexivity.
Qed.

Lemma run_get url token c w :
  run env (get url token) c w =
  (match resource_endpoint env (trace w) url token with
   | Resolved res => Ok res
   | Rejected => Err FetchRejected
   end, c, log (ResourceGet url token) w).
Proof.
  unfold get. simpl.
  destruct (resource_endpoint env (trace w) url token); reflexivity.
Qed.

End Methods.

(** ** The durable store: save, load, clear *)

(** C9 (as stated, refuted).  [load] after [save v] does not return [v] for
    every string [v]: a token with blanks around it comes back trimmed, and
    the empty token comes back as absent. *)
Lemma blanks_are_lost_on_load :
  fst (fst (run (grantEnv "t" "t") (saveTokenToFile " tok " ;; loadTokenFromFile)
              alice emptyWorld)) = Ok (Some "tok")
  /\ fst (fst (run (grantEnv "t" "t") (saveTokenToFile "" ;; loadTokenFromFile)
                alice emptyWorld)) = Ok None
  /\ Some "tok" <> Some " tok " /\ None <> Some "".
Proof. repeat split; try reflexivity; discriminate. Qed.

(** C9 (amended).  For every string [v], [save v] followed by [load] returns
    [v] trimmed when [v] is not empty and absent when [v] is empty; saving
    the same value twice changes nothing to that; and [clear] followed by
    [load] returns absent. *)
Theorem save_then_load env v c w :
  let loaded := match v with EmptyString => None | _ => Some (JS.trim v) end in
  run env (saveTokenToFile v ;; loadTokenFromFile) c w
    = (Ok loaded, c, mkWorld (Some v) (Wrote v :: trace w))
  /\ run env (saveTokenToFile v ;; saveTokenToFile v ;; loadTokenFromFile) c w
    = (Ok loaded, c, mkWorld (Some v) (Wrote v :: Wrote v :: trace w))
  /\ run env (clearTokenFile ;; loadTokenFromFile) c w = (Ok None, c, cleared w).
Proof.
  assert (L : forall tr, stored_token (mkWorld (Some v) tr)
                       = match v with EmptyString => None | _ => Some (JS.trim v) end).
  { intros tr. unfold stored_token. simpl. rewrite JSFacts.byteLength_pos.
    destruct v; reflexivity. }
  cbv zeta. repeat split.
  - rewrite run_bind, run_saveTokenToFile, run_loadTokenFromFile. now rewrite L.
  - rewrite run_bind, run_saveTokenToFile, run_bind, run_saveTokenToFile,
      run_loadTokenFromFile. now rewrite L.
  - rewrite run_bind, run_clearTokenFile, run_loadTokenFromFile.
    unfold stored_token. now rewrite token_file_cleared.
Qed.

(** A token without blanks around it survives [save] then [load]. *)
Corollary plain_token_survives_save env v c w :
  v <> EmptyString -> JS.trim v = v ->
  fst (fst (run env (saveTokenToFile v ;; loadTokenFromFile) c w)) = Ok (Some v).
Proof.
  intros NE T. rewrite run_bind, run_saveTokenToFile, run_loadTokenFromFile.
  unfold stored_token. simpl. rewrite JSFacts.byteLength_pos.
  destruct v; [congruence | now rewrite T].
Qed.

(** ** ensureValidToken *)

(** C2 (the code at the failing input).  A client that holds the token
    ["old"] in memory does not get it back from [ensureValidToken]: the
    authentication endpoint is called and its token returned.  Two calls in
    a row from a cold start post twice. *)
Theorem in_memory_token_is_fetched_again :
  run (grantEnv "new" "new") ensureValidToken (setToken alice "old") (fileWorld "old")
    = (Ok "new", setToken alice "new",
       mkWorld (Some "new")
         [Logged "Access Token retrieved from API and saved to file";
          Wrote "new"; TokenPost "id" "secret";
          Logged "Fetching new access token..."])
  /\ token_posts (trace (snd (run (grantEnv "new" "new")
                                (ensureValidToken ;; ensureValidToken)
                                alice emptyWorld))) = 2.
Proof. split; reflexivity. Qed.

(** With a token in memory, [ensureValidToken] is [fetchNewToken]. *)
Lemma ensureValidToken_with_memory env c w :
  JS.truthy (accessToken c) = true ->
  run env ensureValidToken c w = run env fetchNewToken c w.
Proof. intros T. now rewrite run_ensureValidToken, T. Qed.

(** C5 (as stated, refuted).  The record [" "] is not empty, yet it is not
    adopted: the authentication endpoint is called. *)
Lemma blank_record_is_not_adopted :
  run (grantEnv "fresh" "fresh") ensureValidToken alice (fileWorld " ")
    = (Ok "fresh", setToken alice "fresh",
       mkWorld (Some "fresh")
         [Logged "Access Token retrieved from API and saved to file";
          Wrote "fresh"; TokenPost "id" "secret";
          Logged "Fetching new access token..."])
  /\ " " <> EmptyString /\ "fresh" <> " ".
Proof. repeat split; try reflexivity; discriminate. Qed.

(** The load path of [ensureValidToken]. *)
Lemma ensureValidToken_loads env c w s :
  JS.truthy (accessToken c) = false ->
  token_file w = Some s ->
  JS.trim s <> EmptyString ->
  run env ensureValidToken c w
    = (Ok (JS.trim s), setToken c (JS.trim s),
       log (Logged "Access Token loaded from file") w).
Proof.
  intros M F T.
  rewrite run_ensureValidToken, M. unfold stored_token. rewrite F.
  rewrite JSFacts.byteLength_pos.
  destruct s as [| a s']; [now elim T |].
  destruct (JS.trim (String a s')); [now elim T | reflexivity].
Qed.

(** C5 (amended).  For a client with no in-memory token and a durable record
    that is not blank, [ensureValidToken] adopts the trimmed record into
    memory and returns it; nothing but a console line happens, so the
    authentication endpoint is not called. *)
Theorem warm_start_adopts_record env c w s :
  JS.truthy (accessToken c) = false ->
  token_file w = Some s ->
  JS.trim s <> EmptyString ->
  exists c' w',
    run env ensureValidToken c w = (Ok (JS.trim s), c', w')
    /\ accessToken c' = Some (JS.trim s)
    /\ token_file w' = Some s
    /\ trace w' = Logged "Access Token loaded from file" :: trace w
    /\ token_posts (trace w') = token_posts (trace w).
Proof.
  intros M F T. do 2 eexists. split; [now apply ensureValidToken_loads |].
  simpl. auto.
Qed.

Lemma warm_start_adopts_record_witness :
  exists c' w',
    run (downEnv "x") ensureValidToken anonymous (fileWorld " tok ")
      = (Ok (JS.trim " tok "), c', w')
    /\ accessToken c' = Some (JS.trim " tok ")
    /\ token_file w' = Some " tok "
    /\ trace w' = Logged "Access Token loaded from file" :: trace (fileWorld " tok ")
    /\ token_posts (trace w') = token_posts (trace (fileWorld " tok ")).
Proof.
  apply (warm_start_adopts_record (downEnv "x") anonymous (fileWorld " tok ") " tok ").
  - reflexivity.
  - reflexivity.
  - vm_compute. discriminate.
Defined.

(** C6.  For a client with no in-memory token and no record (or an empty
    one), a successful [ensureValidToken] has posted exactly once to the
    authentication endpoint, which granted the token returned; the token is
    in the file and in memory. *)
Theorem cold_start_fetches_once env c w t c' w' :
  JS.truthy (accessToken c) = false ->
  token_file w = None \/ token_file w = Some EmptyString ->
  run env ensureValidToken c w = (Ok t, c', w') ->
  exists id secret res,
    credentials c = Some (id, secret)
    /\ token_endpoint env (Logged "Fetching new access token..." :: trace w) id secret
       = Resolved res
    /\ ok res = true /\ json res = Some t
    /\ trace w' = Logged "Access Token retrieved from API and saved to file"
                  :: Wrote t :: TokenPost id secret
                  :: Logged "Fetching new access token..." :: trace w
    /\ token_posts (trace w') = S (token_posts (trace w))
    /\ token_file w' = Some t
    /\ accessToken c' = Some t.
Proof.
  intros M F R.
  rewrite run_ensureValidToken, M in R.
  assert (S0 : stored_token w = None).
  { unfold stored_token. destruct F as [F | F]; rewrite F; reflexivity. }
  rewrite S0, run_fetchNewToken in R. cbv zeta in R.
  rewrite run_fetchAccessToken in R.
  destruct (credentials c) as [[id secret] |]; [| discriminate].
  simpl trace in R.
  destruct (token_endpoint env _ id secret) as [| res] eqn:E; [discriminate |].
  simpl in R. destruct (ok res) eqn:O; [| discriminate].
  destruct (json res) as [t0 |] eqn:J; [| discriminate].
  injection R as <- <- <-.
  exists id, secret, res. simpl. repeat split; auto.
Qed.

Lemma cold_start_fetches_once_witness :
  exists id secret res,
    credentials alice = Some (id, secret)
    /\ token_endpoint (grantEnv "fresh" "fresh")
         (Logged "Fetching new access token..." :: trace emptyWorld) id secret
       = Resolved res
    /\ ok res = true /\ json res = Some "fresh"
    /\ trace (mkWorld (Some "fresh")
                [Logged "Access Token retrieved from API and saved to file";
                 Wrote "fresh"; TokenPost "id" "secret";
                 Logged "Fetching new access token..."])
       = Logged "Access Token retrieved from API and saved to file"
         :: Wrote "fresh" :: TokenPost id secret
         :: Logged "Fetching new access token..." :: trace emptyWorld
    /\ token_posts (trace (mkWorld (Some "fresh")
                [Logged "Access Token retrieved from API and saved to file";
                 Wrote "fresh"; TokenPost "id" "secret";
                 Logged "Fetching new access token..."]))
       = S (token_posts (trace emptyWorld))
    /\ token_file (mkWorld (Some "fresh")
                [Logged "Access Token retrieved from API and saved to file";
                 Wrote "fresh"; TokenPost "id" "secret";
                 Logged "Fetching new access token..."]) = Some "fresh"
    /\ accessToken (setToken alice "fresh") = Some "fresh".
Proof.
  apply (cold_start_fetches_once (grantEnv "fresh" "fresh") alice emptyWorld).
  - reflexivity.
  - left. reflexivity.
  - reflexivity.
Defined.

(** C7 (the code at the failing input).  A client without credentials finds
    the token ["tok"] in the file: the first [ensureValidToken] returns it,
    the second one, with that token in memory and still in the file, throws
    the missing-credentials error. *)
Theorem cached_token_then_missing_credentials :
  run (grantEnv "new" "new") ensureValidToken anonymous (fileWorld "tok")
    = (Ok "tok", setToken anonymous "tok",
       log (Logged "Access Token loaded from file") (fileWorld "tok"))
  /\ run (grantEnv "new" "new") ensureValidToken (setToken anonymous "tok")
        (log (Logged "Access Token loaded from file") (fileWorld "tok"))
    = (Err MissingCredentials, setToken anonymous "tok",
       log (Logged "Fetching new access token...")
         (log (Logged "Access Token loaded from file") (fileWorld "tok"))).
Proof. split; reflexivity. Qed.

(** On the path that reaches [fetchAccessToken] the check is lazy and final:
    with a credential missing nothing is posted and the error comes out. *)
Lemma fetchNewToken_without_credentials env c w :
  credentials c = None ->
  run env fetchNewToken c w
    = (Err MissingCredentials, c, log (Logged "Fetching new access token...") w).
Proof.
  intros K. rewrite run_fetchNewToken. cbv zeta.
  now rewrite run_fetchAccessToken, K.
Qed.

(** ** getAccessToken *)

(** C10 (as stated, refuted).  With the non-empty record [" "] in the file
    the credentials decide the result. *)
Lemma blank_record_credentials_matter :
  fst (getAccessToken (grantEnv "fresh" "fresh") (Some "id") (Some "secret")
         (fileWorld " ")) = Ok "fresh"
  /\ fst (getAccessToken (grantEnv "fresh" "fresh") None None (fileWorld " "))
     = Err MissingCredentials
  /\ token_posts (trace (snd (getAccessToken (grantEnv "fresh" "fresh")
                                (Some "id") (Some "secret") (fileWorld " ")))) = 1.
Proof. repeat split; reflexivity. Qed.

(** C10 (amended).  Whenever the durable record is not blank,
    [getAccessToken] returns the trimmed record whatever its two arguments
    are, defined or not; it logs one console line and does nothing else, so
    no network call and no check of the credentials. *)
Theorem getAccessToken_ignores_credentials env id1 secret1 id2 secret2 w s :
  token_file w = Some s ->
  JS.trim s <> EmptyString ->
  getAccessToken env id1 secret1 w
    = (Ok (JS.trim s), log (Logged "Access Token loaded from file") w)
  /\ getAccessToken env id2 secret2 w = getAccessToken env id1 secret1 w.
Proof.
  intros F T.
  assert (G : forall id secret, getAccessToken env id secret w
              = (Ok (JS.trim s), log (Logged "Access Token loaded from file") w)).
  { intros id secret. unfold getAccessToken.
    now rewrite (ensureValidToken_loads env (newClient id secret) w s eq_refl F T). }
  split; [apply G | now rewrite !G].
Qed.

Lemma getAccessToken_ignores_credentials_witness :
  getAccessToken (downEnv "x") (Some "id") None (fileWorld "tok ")
    = (Ok (JS.trim "tok "),
       log (Logged "Access Token loaded from file") (fileWorld "tok "))
  /\ getAccessToken (downEnv "x") None (Some "secret") (fileWorld "tok ")
     = getAccessToken (downEnv "x") (Some "id") None (fileWorld "tok ").
Proof.
  apply (getAccessToken_ignores_credentials (downEnv "x") (Some "id") None
           None (Some "secret") (fileWorld "tok ") "tok ").
  - reflexivity.
  - vm_compute. discriminate.
Defined.

(** ** The file and the memory *)

Section Mirror.
Variable env : Env.

Lemma mirrors_after_save t c tr : mirrors (setToken c t) (mkWorld (Some t) tr).
Proof.
  unfold mirrors, stored_token. simpl. rewrite JSFacts.byteLength_pos.
  destruct t as [| a t']; [now left |].
  right. exists (String a t'). split; reflexivity.
Qed.

Lemma mirrors_no_record c w : token_file w = None -> mirrors c w.
Proof. intros F. left. unfold stored_token. now rewrite F. Qed.

(** [fetchAccessToken] touches neither the client nor the file; it posts at
    most once, and once when it succeeds. *)
Lemma fetchAccessToken_frame c w r c' w' :
  run env fetchAccessToken c w = (r, c', w') ->
  c' = c /\ token_file w' = token_file w
  /\ resource_gets (trace w') = resource_gets (trace w)
  /\ file_writes (trace w') = file_writes (trace w)
  /\ token_posts (trace w') <= S (token_posts (trace w))
  /\ (forall t, r = Ok t -> token_posts (trace w') = S (token_posts (trace w))).
Proof.
  rewrite run_fetchAccessToken.
  destruct (credentials c) as [[id secret] |]; intros R; injection R as <- <- <-;
    simpl; repeat split; auto; discriminate.
Qed.

(** What [fetchNewToken] and [refreshToken] share once the token is there. *)
Lemma stored_facts t msg c w :
  mirrors (fst (stored t msg c w)) (snd (stored t msg c w))
  /\ accessToken (fst (stored t msg c w)) = Some t
  /\ token_file (snd (stored t msg c w)) = Some t
  /\ resource_gets (trace (snd (stored t msg c w))) = resource_gets (trace w)
  /\ token_posts (trace (snd (stored t msg c w))) = token_posts (trace w).
Proof. unfold stored. simpl. repeat split; auto. apply mirrors_after_save. Qed.

Lemma fetchNewToken_outcome c w r c' w' :
  run env fetchNewToken c w = (r, c', w') ->
  resource_gets (trace w') = resource_gets (trace w)
  /\ match r with
     | Ok t => mirrors c' w' /\ accessToken c' = Some t /\ token_file w' = Some t
     | Err _ => c' = c /\ token_file w' = token_file w
     end.
Proof.
  rewrite run_fetchNewToken. cbv zeta.
  destruct (run env fetchAccessToken c _) as [[[t | e] c1] w1] eqn:F;
    apply fetchAccessToken_frame in F; destruct F as (-> & Ff & Fg & _).
  - destruct (stored_facts t "Access Token retrieved from API and saved to file" c w1)
      as (M & A & T & G & _).
    destruct (stored _ _ c w1) as [c2 w2]. simpl in *.
    intros R. injection R as <- <- <-. rewrite G, Fg. auto.
  - intros R. injection R as <- <- <-. simpl in *. auto.
Qed.

Lemma refreshToken_outcome c w r c' w' :
  run env refreshToken c w = (r, c', w') ->
  resource_gets (trace w') = resource_gets (trace w)
  /\ token_posts (trace w') <= S (token_posts (trace w))
  /\ mirrors c' w'
  /\ match r with
     | Ok t => accessToken c' = Some t /\ token_file w' = Some t
               /\ token_posts (trace w') = S (token_posts (trace w))
     | Err _ => c' = c /\ token_file w' = None
     end.
Proof.
  rewrite run_refreshToken. cbv zeta.
  set (w0 := cleared (log _ w)).
  assert (G0 : resource_gets (trace w0) = resource_gets (trace w)).
  { unfold w0, cleared. destruct (token_file _); reflexivity. }
  assert (P0 : token_posts (trace w0) = token_posts (trace w)).
  { unfold w0, cleared. destruct (token_file _); reflexivity. }
  assert (F0 : token_file w0 = None) by apply token_file_cleared.
  destruct (run env fetchAccessToken c w0) as [[[t | e] c1] w1] eqn:F;
    apply fetchAccessToken_frame in F; destruct F as (-> & Ff & Fg & _ & Fp & Fs).
  - destruct (stored_facts t "New access token obtained" c w1) as (M & A & T & G & P).
    destruct (stored _ _ c w1) as [c2 w2]. simpl in *.
    intros R. injection R as <- <- <-.
    rewrite G, Fg, G0, P, (Fs t eq_refl), P0. repeat split; auto.
  - intros R. injection R as <- <- <-.
    rewrite Fg, G0. repeat split; auto; try congruence; try lia.
    apply mirrors_no_record. congruence.
Qed.

Lemma ensureValidToken_outcome c w r c' w' :
  run env ensureValidToken c w = (r, c', w') ->
  resource_gets (trace w') = resource_gets (trace w)
  /\ ((JS.truthy (accessToken c) = true -> mirrors c w) -> mirrors c' w')
  /\ match r with
     | Ok t => accessToken c' = Some t
     | Err _ => c' = c /\ token_file w' = token_file w
     end.
Proof.
  rewrite run_ensureValidToken.
  assert (K : forall d v, token_file v = token_file w -> mirrors d w -> mirrors d v).
  { intros d v E. unfold mirrors, stored_token. now rewrite E. }
  assert (N : run env fetchNewToken c w = (r, c', w') ->
              JS.truthy (accessToken c) = true
              \/ JS.truthy (stored_token w) = false ->
              resource_gets (trace w') = resource_gets (trace w)
              /\ ((JS.truthy (accessToken c) = true -> mirrors c w) -> mirrors c' w')
              /\ match r with
                 | Ok t => accessToken c' = Some t
                 | Err _ => c' = c /\ token_file w' = token_file w
                 end).
  { intros R H. apply fetchNewToken_outcome in R. destruct R as (G & R).
    split; [exact G |]. destruct r as [t | e].
    - destruct R as (M & A & _). auto.
    - destruct R as (-> & T). split; [| auto]. intros Hm.
      destruct H as [H | H]; [| left; unfold stored_token in *; now rewrite T].
      apply K; [exact T | apply Hm, H]. }
  destruct (JS.truthy (accessToken c)) eqn:Tr.
  - intros R. apply N; auto.
  - destruct (stored_token w) as [[| a t] |] eqn:S.
    + intros R. apply N; auto.
    + intros R. injection R as <- <- <-. simpl. repeat split; auto.
      intros _. right. exists (String a t). split; [reflexivity |].
      unfold stored_token in *. simpl.
      destruct (token_file w) as [s |]; [| discriminate].
      destruct (0 <? JS.byteLength s)%N; [| discriminate].
      injection S as S. now rewrite <- S, JSFacts.trim_idem.
    + intros R. apply N; auto.
Qed.

End Mirror.

(** C3 (as stated, refuted).  When the refresh fails, the record has been
    deleted but the memory of the client has not been cleared: it still
    holds the token the resource server refused. *)
Lemma failed_refresh_keeps_memory :
  exists c' w',
    run (downEnv "x") refreshToken (setToken alice "old") (fileWorld "old")
      = (Err (TokenRequestFailed 503 "Service Unavailable"), c', w')
    /\ token_file w' = None
    /\ accessToken c' = Some "old"
    /\ ~ invalidated c' w'.
Proof.
  do 2 eexists. split; [reflexivity |]. simpl. repeat split.
  intros [_ H]. discriminate H.
Qed.

(** The file after a successful [ensureValidToken]: the returned token as it
    was written, or the record it was loaded from. *)
Lemma ensureValidToken_success env c w t c' w' :
  run env ensureValidToken c w = (Ok t, c', w') ->
  accessToken c' = Some t
  /\ exists s, token_file w' = Some s /\ JS.trim s = JS.trim t
               /\ (s = t \/ (t = JS.trim s /\ token_file w = Some s)).
Proof.
  rewrite run_ensureValidToken.
  assert (N : run env fetchNewToken c w = (Ok t, c', w') ->
              accessToken c' = Some t
              /\ exists s, token_file w' = Some s /\ JS.trim s = JS.trim t
                           /\ (s = t \/ (t = JS.trim s /\ token_file w = Some s))).
  { intros R. apply fetchNewToken_outcome in R. destruct R as (_ & _ & A & F).
    split; [exact A |]. exists t. auto. }
  destruct (JS.truthy (accessToken c)); [exact N |].
  unfold stored_token.
  destruct (token_file w) as [s |] eqn:F; [| exact N].
  destruct (0 <? JS.byteLength s)%N; [| exact N].
  destruct (JS.trim s) as [| a u] eqn:T; [exact N |].
  intros R. injection R as <- <- <-. simpl. split; [reflexivity |].
  exists s. rewrite <- T, JSFacts.trim_idem. auto.
Qed.

Lemma mirrors_of_record c w s t :
  accessToken c = Some t -> token_file w = Some s -> JS.trim s = JS.trim t ->
  mirrors c w.
Proof.
  intros A F T. unfold mirrors, stored_token. rewrite F, JSFacts.byteLength_pos.
  destruct s as [| a s']; [now left |].
  right. exists t. now rewrite T.
Qed.

(** C3 (amended).  After a successful [ensureValidToken] or [refreshToken]
    the token returned is in memory and the durable record is present and
    holds it: the file is the token as it was written, or (on the load path)
    the unchanged record whose trimmed content is the token; so what the file
    loads as is the in-memory token, trimmed.  An [ensureValidToken] that
    fails with one of the errors of [fetchAccessToken] changes neither the
    client nor the file.  A [refreshToken] that fails leaves the file absent,
    and, when it fails with one of the errors of [fetchAccessToken], the
    in-memory value as it was: the invalidation does not clear it. *)
Theorem durable_record_mirrors_memory env c w :
  (forall r c' w',
      run env ensureValidToken c w = (r, c', w') ->
      match r with
      | Ok t =>
          accessToken c' = Some t
          /\ (exists s, token_file w' = Some s /\ JS.trim s = JS.trim t
                        /\ (s = t \/ (t = JS.trim s /\ token_file w = Some s)))
          /\ mirrors c' w'
      | Err e =>
          fetch_error e ->
          c' = c /\ token_file w' = token_file w
          /\ ((JS.truthy (accessToken c) = true -> mirrors c w) -> mirrors c' w')
      end)
  /\ (forall r c' w',
      run env refreshToken c w = (r, c', w') ->
      match r with
      | Ok t =>
          accessToken c' = Some t /\ token_file w' = Some t /\ mirrors c' w'
      | Err e =>
          token_file w' = None /\ mirrors c' w'
          /\ (fetch_error e -> accessToken c' = accessToken c)
      end).
Proof.
  split; intros [t | e] c' w' R.
  - destruct (ensureValidToken_success env c w t c' w' R) as (A & s & F & T & D).
    split; [exact A |]. split; [eauto |]. exact (mirrors_of_record c' w' s t A F T).
  - intros _. apply ensureValidToken_outcome in R. destruct R as (_ & M & -> & F).
    auto.
  - apply refreshToken_outcome in R. destruct R as (_ & _ & M & A & F & _). auto.
  - apply refreshToken_outcome in R. destruct R as (_ & _ & M & -> & F). auto.
Qed.

Lemma durable_record_mirrors_memory_witness :
  (accessToken (setToken alice "new") = Some "new"
   /\ (exists s,
          token_file
            (mkWorld (Some "new")
               [Logged "Access Token retrieved from API and saved to file";
                Wrote "new"; TokenPost "id" "secret";
                Logged "Fetching new access token..."]) = Some s
          /\ JS.trim s = JS.trim "new"
          /\ (s = "new" \/ ("new" = JS.trim s /\ token_file (fileWorld " ") = Some s)))
   /\ mirrors (setToken alice "new")
        (mkWorld (Some "new")
           [Logged "Access Token retrieved from API and saved to file";
            Wrote "new"; TokenPost "id" "secret";
            Logged "Fetching new access token..."]))
  /\ (setToken anonymous "old" = setToken anonymous "old"
      /\ token_file (log (Logged "Fetching new access token...") (fileWorld "old"))
         = token_file (fileWorld "old")
      /\ mirrors (setToken anonymous "old")
           (log (Logged "Fetching new access token...") (fileWorld "old")))
  /\ (token_file
        (mkWorld None
           [TokenPost "id" "secret"; Unlinked;
            Logged "Token expired or invalid. Refreshing token..."]) = None
      /\ mirrors (setToken alice "old")
           (mkWorld None
              [TokenPost "id" "secret"; Unlinked;
               Logged "Token expired or invalid. Refreshing token..."])
      /\ accessToken (setToken alice "old") = accessToken (setToken alice "old")).
Proof.
  split; [| split].
  - exact (proj1 (durable_record_mirrors_memory (grantEnv "new" "new") alice
                    (fileWorld " "))
             (Ok "new") _ _ eq_refl).
  - destruct (proj1 (durable_record_mirrors_memory (grantEnv "new" "new")
                       (setToken anonymous "old") (fileWorld "old"))
                (Err MissingCredentials) _ _ eq_refl I) as (E & F & M).
    split; [exact E |]. split; [exact F |].
    apply M. intros _. right. exists "old". split; reflexivity.
  - destruct (proj2 (durable_record_mirrors_memory (downEnv "x")
                       (setToken alice "old") (fileWorld "old"))
                (Err (TokenRequestFailed 503 "Service Unavailable")) _ _ eq_refl)
      as (F & M & A).
    split; [exact F |]. split; [exact M |]. exact (A I).
Defined.

(** ** makeAuthenticatedRequest *)

Section Requests.
Variable env : Env.

Lemma run_makeAuthenticatedRequest url c w tok c1 w1 :
  run env ensureValidToken c w = (Ok tok, c1, w1) ->
  run env (makeAuthenticatedRequest url) c w =
  let w1' := log (ResourceGet url tok) w1 in
  match resource_endpoint env (trace w1) url tok with
  | Rejected => (Err FetchRejected, c1, w1')
  | Resolved res =>
      if (status res =? 401)%N then
        match run env refreshToken c1 w1' with
        | (Err e, c2, w2) => (Err e, c2, w2)
        | (Ok tok', c2, w2) =>
            let w2' := log (ResourceGet url tok') w2 in
            match resource_endpoint env (trace w2) url tok' with
            | Rejected => (Err FetchRejected, c2, w2')
            | Resolved res' =>
                if ok res' then
                  (match json res' with
                   | Some data => Ok data
                   | None => Err JsonRejected
                   end, c2, w2')
                else (Err (ApiRequestFailedAfterRefresh (status res')), c2, w2')
            end
        end
      else if ok res then
        (match json res with Some data => Ok data | None => Err JsonRejected end,
         c1, w1')
      else (Err (ApiRequestFailed (status res)), c1, w1')
  end.
Proof.
  intros E. unfold makeAuthenticatedRequest.
  rewrite run_bind, E, run_bind, run_get. cbv zeta.
  destruct (resource_endpoint env (trace w1) url tok) as [| res]; [reflexivity |].
  destruct (status res =? 401)%N.
  - rewrite run_bind.
    destruct (run env refreshToken c1 _) as [[[tok' | e] c2] w2]; [| reflexivity].
    rewrite run_bind, run_get.
    destruct (resource_endpoint env (trace w2) url tok') as [| res']; [reflexivity |].
    destruct (ok res'); simpl; [| reflexivity].
    unfold json_of. destruct (json res'); reflexivity.
  - destruct (ok res); simpl; [| reflexivity].
    unfold json_of. destruct (json res); reflexivity.
Qed.

End Requests.




(** The double 401, run: two GETs, one POST between them, the error of the
    second answer. *)
Example double_401 :
  run (statusEnv "new" 401) (makeAuthenticatedRequest "/api/states/all")
    alice (fileWorld "old")
  = (Err (ApiRequestFailedAfterRefresh 401), setToken alice "new",
     mkWorld (Some "new")
       [ResourceGet "/api/states/all" "new"; Logged "New access token obtained";
        Wrote "new"; TokenPost "id" "secret"; Unlinked;
        Logged "Token expired or invalid. Refreshing token...";
        ResourceGet "/api/states/all" "old"; Logged "Access Token loaded from file"]).
Proof. reflexivity. Qed.

(** C8.  When the GET of [makeAuthenticatedRequest] is answered with a
    status that is neither 2xx nor 401, the call fails at once with the error
    that carries that status: the GET is the last event, so there is no
    retry and no call to the authentication endpoint after it. *)
Theorem other_failures_are_not_retried env url c w tok c1 w1 res :
  run env ensureValidToken c w = (Ok tok, c1, w1) ->
  resource_endpoint env (trace w1) url tok = Resolved res ->
  ok res = false ->
  status res <> 401%N ->
  exists w',
    run env (makeAuthenticatedRequest url) c w
      = (Err (ApiRequestFailed (status res)), c1, w')
    /\ message (ApiRequestFailed (status res))
       = Some ("API request failed: " ++ JS.numberToString (status res))
    /\ trace w' = ResourceGet url tok :: trace w1
    /\ token_file w' = token_file w1
    /\ resource_gets (trace w') = (url, tok) :: resource_gets (trace w)
    /\ token_posts (trace w') = token_posts (trace w1).
Proof.
  intros E G O S.
  pose proof (run_makeAuthenticatedRequest env url c w tok c1 w1 E) as M.
  cbv zeta in M. rewrite G, O in M.
  apply N.eqb_neq in S. rewrite S in M.
  apply ensureValidToken_outcome in E. destruct E as (G1 & _).
  eexists. split; [exact M |]. simpl. rewrite G1. repeat split.
Qed.

Lemma other_failures_are_not_retried_witness :
  exists w',
    run (statusEnv "new" 404) (makeAuthenticatedRequest "/api/tracks") alice
      (fileWorld "tok")
      = (Err (ApiRequestFailed (status (@mkResponse Json 404 "" None))),
         setToken alice "tok", w')
    /\ message (ApiRequestFailed (status (@mkResponse Json 404 "" None)))
       = Some ("API request failed: "
               ++ JS.numberToString (status (@mkResponse Json 404 "" None)))
    /\ trace w' = ResourceGet "/api/tracks" "tok"
                  :: trace (log (Logged "Access Token loaded from file")
                              (fileWorld "tok"))
    /\ token_file w'
       = token_file (log (Logged "Access Token loaded from file") (fileWorld "tok"))
    /\ resource_gets (trace w')
       = ("/api/tracks", "tok") :: resource_gets (trace (fileWorld "tok"))
    /\ token_posts (trace w')
       = token_posts (trace (log (Logged "Access Token loaded from file")
                               (fileWorld "tok"))).
Proof.
  apply (other_failures_are_not_retried (statusEnv "new" 404) "/api/tracks"
           alice (fileWorld "tok") "tok" (setToken alice "tok")
           (log (Logged "Access Token loaded from file") (fileWorld "tok"))
           (mkResponse 404 "" None)).
  - reflexivity.
  - reflexivity.
  - reflexivity.
  - discriminate.
Defined.

(** ** One operation at a time *)

Section Steps.
Variable env : Env.

(** [run] is [steps] with enough of them. *)
Lemma steps_reach_run {A} (p : Prog A) c w :
  exists n, forall m, n <= m ->
    steps env m (p, c, w)
    = (final (fst (fst (run env p c w))), snd (fst (run env p c w)),
       snd (run env p c w)).
Proof.
  revert c w. induction p as [a | e | X op k IH]; intros c w.
  - exists 0. intros m _. apply steps_Ret.
  - exists 0. intros m _. apply steps_Throw.
  - simpl run. destruct (handle env op c w) as [[[x | e] c1] w1] eqn:H.
    + destruct (IH x c1 w1) as (n & Hn). exists (S n). intros [| m] L; [lia |].
      simpl. rewrite H. apply Hn. lia.
    + exists 1. intros [| m] L; [lia |]. simpl. rewrite H. apply steps_Throw.
Qed.

End Steps.

Arguments ok : simpl never.

Ltac answer :=
  simpl;
  repeat (match goal with
          | |- context [token_endpoint ?e ?tr ?i ?s] =>
              destruct (token_endpoint e tr i s) eqn:?
          | |- context [ok ?r] => destruct (ok r) eqn:?
          | |- context [json ?r] => destruct (json r) eqn:?
          end; simpl).

Ltac settle :=
  answer; repeat split; intros; simpl in *;
  try lia; try congruence; try reflexivity;
  try (do 4 eexists; repeat split; (reflexivity || eassumption)).

(** C4.  [refreshToken], one operation at a time from any client and world.
    Its first three operations are the console warning, [existsSync] and
    [unlinkSync] (or the first read of a credential when there is no file):
    nothing is posted or written during them.  From then on, at every point
    before the write of the new token, the file is absent, and a client
    created at that point loads nothing from it.  Once written, the file
    holds the token the authentication endpoint has just granted. *)
Theorem refresh_deletes_before_fetching env c w n :
  let w' := snd (steps env n (refreshToken, c, w)) in
  (n <= 3 ->
     token_posts (trace w') = token_posts (trace w)
     /\ file_writes (trace w') = file_writes (trace w))
  /\ (3 <= n -> file_writes (trace w') = file_writes (trace w) ->
      token_file w' = None
      /\ forall id secret,
          fst (fst (run env loadTokenFromFile (newClient id secret) w')) = Ok None)
  /\ (3 <= n -> file_writes (trace w') <> file_writes (trace w) ->
      exists t id secret res,
        token_file w' = Some t
        /\ credentials c = Some (id, secret)
        /\ token_endpoint env
             (trace (cleared (log (Logged "Token expired or invalid. Refreshing token...") w)))
             id secret = Resolved res
        /\ ok res = true /\ json res = Some t).
Proof.
  cbv zeta. unfold refreshToken, fetchAccessToken, json_of, await.
  destruct c as [[[| a i] |] [[| b s] |] m]; destruct w as [[f |] tr];
    do 10 (destruct n as [| n]; [solve [settle] |]);
    answer; rewrite ?steps_Ret, ?steps_Throw; settle.
Qed.

Lemma refresh_deletes_before_fetching_witness :
  (token_file
     (snd (steps (grantEnv "new" "new") 6
             (refreshToken, setToken alice "old", fileWorld "old"))) = None
   /\ forall id secret,
       fst (fst (run (grantEnv "new" "new") loadTokenFromFile (newClient id secret)
                   (snd (steps (grantEnv "new" "new") 6
                           (refreshToken, setToken alice "old", fileWorld "old")))))
       = Ok None)
  /\ token_posts
       (trace (snd (steps (grantEnv "new" "new") 6
                      (refreshToken, setToken alice "old", fileWorld "old")))) = 1
  /\ exists t id secret res,
      token_file
        (snd (steps (grantEnv "new" "new") 8
                (refreshToken, setToken alice "old", fileWorld "old"))) = Some t
      /\ credentials (setToken alice "old") = Some (id, secret)
      /\ token_endpoint (grantEnv "new" "new")
           (trace (cleared (log (Logged "Token expired or invalid. Refreshing token...")
                              (fileWorld "old"))))
           id secret = Resolved res
      /\ ok res = true /\ json res = Some t.
Proof.
  split; [| split].
  - apply (proj1 (proj2 (refresh_deletes_before_fetching (grantEnv "new" "new")
                           (setToken alice "old") (fileWorld "old") 6))).
    + lia.
    + reflexivity.
  - reflexivity.
  - apply (proj2 (proj2 (refresh_deletes_before_fetching (grantEnv "new" "new")
                           (setToken alice "old") (fileWorld "old") 8))).
    + lia.
    + simpl. discriminate.
Defined.

(** ** More on the token *)

Section TokenEffects.
Variable env : Env.

Lemma ok_is_not_401 {B} (res : Response B) : ok res = true -> (status res =? 401)%N = false.
Proof.
  unfold ok. intros H. apply andb_true_iff in H. destruct H as [_ H].
  apply N.leb_le in H. apply N.eqb_neq. lia.
Qed.

Lemma credentials_setToken c t : credentials (setToken c t) = credentials c.
Proof. reflexivity. Qed.

(** [fetchNewToken] posts at most once; the file changes only when the token
    is there. *)
Lemma fetchNewToken_effects c w r c' w' :
  run env fetchNewToken c w = (r, c', w') ->
  (exists e, r = Err e /\ token_file w' = token_file w
             /\ token_posts (trace w') <= S (token_posts (trace w)))
  \/ (exists t, r = Ok t /\ token_file w' = Some t
                /\ token_posts (trace w') = S (token_posts (trace w))).
Proof.
  rewrite run_fetchNewToken. cbv zeta.
  destruct (run env fetchAccessToken c _) as [[[t | e] c1] w1] eqn:F;
    apply fetchAccessToken_frame in F;
    destruct F as (-> & Ff & _ & _ & Fp & Fs); simpl in *.
  - intros R. injection R as <- <- <-. right. exists t. simpl.
    repeat split. apply (Fs t eq_refl).
  - intros R. injection R as <- <- <-. left. exists e. repeat split; auto.
Qed.

Lemma ensureValidToken_effects c w r c' w' :
  run env ensureValidToken c w = (r, c', w') ->
  (token_file w' = token_file w
   /\ token_posts (trace w') <= S (token_posts (trace w))
   /\ ((exists e, r = Err e) \/ token_posts (trace w') = token_posts (trace w)))
  \/ (exists t, r = Ok t /\ token_file w' = Some t
                /\ token_posts (trace w') = S (token_posts (trace w))).
Proof.
  rewrite run_ensureValidToken.
  assert (N : run env fetchNewToken c w = (r, c', w') ->
              (token_file w' = token_file w
               /\ token_posts (trace w') <= S (token_posts (trace w))
               /\ ((exists e, r = Err e)
                   \/ token_posts (trace w') = token_posts (trace w)))
              \/ (exists t, r = Ok t /\ token_file w' = Some t
                            /\ token_posts (trace w') = S (token_posts (trace w)))).
  { intros R. apply fetchNewToken_effects in R.
    destruct R as [(e & -> & F & P) | R]; [left | right; exact R].
    repeat split; eauto. }
  destruct (JS.truthy (accessToken c)); [exact N |].
  destruct (stored_token w) as [[| a t] |]; try exact N.
  intros R. injection R as <- <- <-. left. simpl. repeat split; auto.
Qed.

Lemma makeAuthenticatedRequest_without_token url c w e c1 w1 :
  run env ensureValidToken c w = (Err e, c1, w1) ->
  run env (makeAuthenticatedRequest url) c w = (Err e, c1, w1).
Proof.
  intros E. unfold makeAuthenticatedRequest. now rewrite run_bind, E.
Qed.

End TokenEffects.

(** X1.  When the first GET of [makeAuthenticatedRequest] is answered with a
    2xx status, the call returns the parsed body as it is (or the error of
    [res.json()] when the body does not parse) after that single GET: no
    refresh, no second request, and the client and the file are as
    [ensureValidToken] left them. *)
Theorem success_returns_the_body env url c w tok c1 w1 res :
  run env ensureValidToken c w = (Ok tok, c1, w1) ->
  resource_endpoint env (trace w1) url tok = Resolved res ->
  ok res = true ->
  run env (makeAuthenticatedRequest url) c w
    = (match json res with Some data => Ok data | None => Err JsonRejected end,
       c1, log (ResourceGet url tok) w1)
  /\ accessToken c1 = Some tok
  /\ resource_gets (trace (log (ResourceGet url tok) w1))
     = (url, tok) :: resource_gets (trace w).
Proof.
  intros E G O.
  pose proof (run_makeAuthenticatedRequest env url c w tok c1 w1 E) as M.
  cbv zeta in M. rewrite G, O, (ok_is_not_401 res O) in M.
  apply ensureValidToken_outcome in E. destruct E as (G1 & _ & A).
  simpl. rewrite G1. auto.
Qed.

Lemma success_returns_the_body_witness :
  run (grantEnv "new" "tok") (makeAuthenticatedRequest "/api/states/all")
    anonymous (fileWorld "tok ")
    = (match json (@mkResponse Json 200 "OK" (Some (JArray []))) with
       | Some data => Ok data
       | None => Err JsonRejected
       end,
       setToken anonymous "tok",
       log (ResourceGet "/api/states/all" "tok")
         (log (Logged "Access Token loaded from file") (fileWorld "tok ")))
  /\ accessToken (setToken anonymous "tok") = Some "tok"
  /\ resource_gets
       (trace (log (ResourceGet "/api/states/all" "tok")
                 (log (Logged "Access Token loaded from file") (fileWorld "tok "))))
     = ("/api/states/all", "tok") :: resource_gets (trace (fileWorld "tok ")).
Proof.
  apply (success_returns_the_body (grantEnv "new" "tok") "/api/states/all"
           anonymous (fileWorld "tok ") "tok").
  - reflexivity.
  - reflexivity.
  - reflexivity.
Defined.

(** X2.  When the first GET is answered 401, the refresh succeeds and the
    retry is answered with a 2xx status, the call returns the parsed body of
    the retry; the retry carried the new token, which is now in memory and
    in the file; the authentication endpoint was called once for the
    refresh, and two GETs were sent in all. *)
Theorem refresh_then_success env url c w tok c1 w1 res tok' c2 w2 res' :
  run env ensureValidToken c w = (Ok tok, c1, w1) ->
  resource_endpoint env (trace w1) url tok = Resolved res ->
  status res = 401%N ->
  run env refreshToken c1 (log (ResourceGet url tok) w1) = (Ok tok', c2, w2) ->
  resource_endpoint env (trace w2) url tok' = Resolved res' ->
  ok res' = true ->
  run env (makeAuthenticatedRequest url) c w
    = (match json res' with Some data => Ok data | None => Err JsonRejected end,
       c2, log (ResourceGet url tok') w2)
  /\ accessToken c2 = Some tok'
  /\ token_file (log (ResourceGet url tok') w2) = Some tok'
  /\ token_posts (trace (log (ResourceGet url tok') w2)) = S (token_posts (trace w1))
  /\ resource_gets (trace (log (ResourceGet url tok') w2))
     = (url, tok') :: (url, tok) :: resource_gets (trace w).
Proof.
  intros E G S R G' O'.
  pose proof (run_makeAuthenticatedRequest env url c w tok c1 w1 E) as M.
  cbv zeta in M. rewrite G, S in M. simpl N.eqb in M. cbv iota in M.
  rewrite R, G', O' in M.
  apply ensureValidToken_outcome in E. destruct E as (G1 & _).
  apply refreshToken_outcome in R. destruct R as (G2 & _ & _ & A & F & P).
  simpl in *. rewrite G2, G1. auto.
Qed.

Lemma refresh_then_success_witness :
  run (grantEnv "new" "new") (makeAuthenticatedRequest "/api/states/all")
    alice (fileWorld "old")
    = (match json (@mkResponse Json 200 "OK" (Some (JArray []))) with
       | Some data => Ok data
       | None => Err JsonRejected
       end,
       setToken alice "new",
       log (ResourceGet "/api/states/all" "new")
         (mkWorld (Some "new")
            [Logged "New access token obtained"; Wrote "new";
             TokenPost "id" "secret"; Unlinked;
             Logged "Token expired or invalid. Refreshing token...";
             ResourceGet "/api/states/all" "old";
             Logged "Access Token loaded from file"]))
  /\ accessToken (setToken alice "new") = Some "new"
  /\ token_file
       (log (ResourceGet "/api/states/all" "new")
          (mkWorld (Some "new")
             [Logged "New access token obtained"; Wrote "new";
              TokenPost "id" "secret"; Unlinked;
              Logged "Token expired or invalid. Refreshing token...";
              ResourceGet "/api/states/all" "old";
              Logged "Access Token loaded from file"])) = Some "new"
  /\ token_posts
       (trace
          (log (ResourceGet "/api/states/all" "new")
             (mkWorld (Some "new")
                [Logged "New access token obtained"; Wrote "new";
                 TokenPost "id" "secret"; Unlinked;
                 Logged "Token expired or invalid. Refreshing token...";
                 ResourceGet "/api/states/all" "old";
                 Logged "Access Token loaded from file"])))
     = S (token_posts
            (trace (log (Logged "Access Token loaded from file") (fileWorld "old"))))
  /\ resource_gets
       (trace
          (log (ResourceGet "/api/states/all" "new")
             (mkWorld (Some "new")
                [Logged "New access token obtained"; Wrote "new";
                 TokenPost "id" "secret"; Unlinked;
                 Logged "Token expired or invalid. Refreshing token...";
                 ResourceGet "/api/states/all" "old";
                 Logged "Access Token loaded from file"])))
     = ("/api/states/all", "new") :: ("/api/states/all", "old")
       :: resource_gets (trace (fileWorld "old")).
Proof.
  apply (refresh_then_success (grantEnv "new" "new") "/api/states/all"
           alice (fileWorld "old") "old" (setToken alice "old")
           (log (Logged "Access Token loaded from file") (fileWorld "old"))
           (mkResponse 401 "Unauthorized" None) "new" (setToken alice "new")
           (mkWorld (Some "new")
              [Logged "New access token obtained"; Wrote "new";
               TokenPost "id" "secret"; Unlinked;
               Logged "Token expired or invalid. Refreshing token...";
               ResourceGet "/api/states/all" "old";
               Logged "Access Token loaded from file"])
           (mkResponse 200 "OK" (Some (JArray [])))).
  - reflexivity.
  - reflexivity.
  - reflexivity.
  - reflexivity.
  - reflexivity.
  - reflexivity.
Defined.

(** The network traffic of one call. *)
Lemma makeAuthenticatedRequest_traffic env url c w :
  exists gets,
    resource_gets (trace (snd (run env (makeAuthenticatedRequest url) c w)))
      = (gets ++ resource_gets (trace w))%list
    /\ length gets <= 2
    /\ Forall (fun g => fst g = url) gets
    /\ token_posts (trace (snd (run env (makeAuthenticatedRequest url) c w)))
       <= 2 + token_posts (trace w)
    /\ match fst (fst (run env ensureValidToken c w)) with
       | Ok _ => 1 <= length gets
       | Err _ => gets = []
       end.
Proof.
  destruct (run env ensureValidToken c w) as [[[tok | e] c1] w1] eqn:E; cbn [fst].
  - pose proof (run_makeAuthenticatedRequest env url c w tok c1 w1 E) as M.
    cbv zeta in M.
    pose proof (ensureValidToken_outcome env c w _ _ _ E) as (G1 & _).
    assert (P1 : token_posts (trace w1) <= S (token_posts (trace w))).
    { apply ensureValidToken_effects in E.
      destruct E as [(_ & P & _) | (t & _ & _ & P)]; lia. }
    assert (One : exists gets,
               resource_gets (trace (log (ResourceGet url tok) w1))
                 = (gets ++ resource_gets (trace w))%list
               /\ length gets <= 2 /\ Forall (fun g => fst g = url) gets
               /\ token_posts (trace (log (ResourceGet url tok) w1))
                  <= 2 + token_posts (trace w)
               /\ 1 <= length gets).
    { exists [(url, tok)]. simpl. rewrite G1. repeat split; auto; lia. }
    destruct (resource_endpoint env (trace w1) url tok) as [| res];
      [rewrite M; exact One |].
    destruct (status res =? 401)%N;
      [| destruct (ok res); rewrite M; exact One].
    destruct (run env refreshToken c1 (log (ResourceGet url tok) w1))
      as [[[tok' | e] c2] w2] eqn:R;
      pose proof (refreshToken_outcome env _ _ _ _ _ R) as (G2 & P2 & _);
      simpl in G2, P2; rewrite G1 in G2.
    + assert (Two : exists gets,
                 resource_gets (trace (log (ResourceGet url tok') w2))
                   = (gets ++ resource_gets (trace w))%list
                 /\ length gets <= 2 /\ Forall (fun g => fst g = url) gets
                 /\ token_posts (trace (log (ResourceGet url tok') w2))
                    <= 2 + token_posts (trace w)
                 /\ 1 <= length gets).
      { exists [(url, tok'); (url, tok)]. simpl. rewrite G2.
        repeat split; auto; lia. }
      destruct (resource_endpoint env (trace w2) url tok') as [| res'];
        [rewrite M; exact Two |].
      destruct (ok res'); rewrite M; exact Two.
    + rewrite M. exists [(url, tok)]. simpl. rewrite G2.
      repeat split; auto; lia.
  - rewrite (makeAuthenticatedRequest_without_token env url c w e c1 w1 E).
    pose proof (ensureValidToken_outcome env c w _ _ _ E) as (G1 & _).
    exists []. simpl. rewrite G1. repeat split; auto.
    apply ensureValidToken_effects in E.
    destruct E as [(_ & P & _) | (t & _ & _ & P)]; lia.
Qed.

(** X3.  Whatever the servers answer, one call of [makeAuthenticatedRequest]
    sends at most two GETs, all of them to the URL it was given, and posts at
    most twice to the authentication endpoint.  It sends no GET at all when
    [ensureValidToken] fails, and at least one when it succeeds. *)
Theorem at_most_two_gets_two_posts env url c w :
  exists gets,
    resource_gets (trace (snd (run env (makeAuthenticatedRequest url) c w)))
      = (gets ++ resource_gets (trace w))%list
    /\ length gets <= 2
    /\ Forall (fun g => fst g = url) gets
    /\ token_posts (trace (snd (run env (makeAuthenticatedRequest url) c w)))
       <= 2 + token_posts (trace w)
    /\ match fst (fst (run env ensureValidToken c w)) with
       | Ok _ => 1 <= length gets
       | Err _ => gets = []
       end.
Proof. exact (makeAuthenticatedRequest_traffic env url c w). Qed.

(** X4.  A client without credentials that works from a cached token loses
    it at the first 401: [makeAuthenticatedRequest] deletes the file before
    it finds that it cannot fetch, fails with the missing-credentials error,
    sends no retry and posts nothing.  The refused token stays in memory. *)
Theorem stale_cache_without_credentials env url c w s res :
  credentials c = None ->
  JS.truthy (accessToken c) = false ->
  token_file w = Some s ->
  JS.trim s <> EmptyString ->
  resource_endpoint env (Logged "Access Token loaded from file" :: trace w)
    url (JS.trim s) = Resolved res ->
  status res = 401%N ->
  run env (makeAuthenticatedRequest url) c w
    = (Err MissingCredentials, setToken c (JS.trim s),
       mkWorld None
         (Unlinked :: Logged "Token expired or invalid. Refreshing token..."
          :: ResourceGet url (JS.trim s)
          :: Logged "Access Token loaded from file" :: trace w)).
Proof.
  intros K M F T G S.
  pose proof (ensureValidToken_loads env c w s M F T) as E.
  rewrite (run_makeAuthenticatedRequest env url c w _ _ _ E). cbv zeta.
  simpl trace at 1. rewrite G, S. simpl N.eqb. cbv iota.
  rewrite run_refreshToken. cbv zeta.
  rewrite run_fetchAccessToken, credentials_setToken, K.
  unfold cleared. simpl. now rewrite F.
Qed.

Lemma stale_cache_without_credentials_witness :
  run (statusEnv "new" 401) (makeAuthenticatedRequest "/api/tracks")
    anonymous (fileWorld "old")
    = (Err MissingCredentials, setToken anonymous (JS.trim "old"),
       mkWorld None
         (Unlinked :: Logged "Token expired or invalid. Refreshing token..."
          :: ResourceGet "/api/tracks" (JS.trim "old")
          :: Logged "Access Token loaded from file" :: trace (fileWorld "old"))).
Proof.
  apply (stale_cache_without_credentials (statusEnv "new" 401) "/api/tracks"
           anonymous (fileWorld "old") "old" (mkResponse 401 "" None)).
  - reflexivity.
  - reflexivity.
  - reflexivity.
  - vm_compute. discriminate.
  - reflexivity.
  - reflexivity.
Defined.

(** What a world with the token [t] in the file gives to a new client. *)
Lemma restart_loads env env' c w r c' w' t id secret :
  run env ensureValidToken c w = (r, c', w')
  \/ run env refreshToken c w = (r, c', w') ->
  r = Ok t -> JS.trim t = t -> t <> EmptyString ->
  getAccessToken env' id secret w'
    = (Ok t, log (Logged "Access Token loaded from file") w').
Proof.
  intros H -> T NE.
  assert (S : exists s, token_file w' = Some s /\ JS.trim s = t).
  { destruct H as [E | R].
    - rewrite run_ensureValidToken in E.
      assert (N : run env fetchNewToken c w = (Ok t, c', w') ->
                  exists s, token_file w' = Some s /\ JS.trim s = t).
      { intros F. apply fetchNewToken_outcome in F. destruct F as (_ & _ & _ & F).
        eauto. }
      destruct (JS.truthy (accessToken c)); [auto |].
      unfold stored_token in E.
      destruct (token_file w) as [s |] eqn:F; [| auto].
      destruct (0 <? JS.byteLength s)%N; [| auto].
      destruct (JS.trim s) as [| a u] eqn:Ts; [auto |].
      injection E as <- <- <-. exists s. simpl. auto.
    - apply refreshToken_outcome in R. destruct R as (_ & _ & _ & _ & F & _).
      eauto. }
  destruct S as (s & F & Ts). unfold getAccessToken.
  rewrite (ensureValidToken_loads env' (newClient id secret) w' s eq_refl F);
    [now rewrite Ts | congruence].
Qed.

(** X5.  A token that [ensureValidToken] or [refreshToken] has returned, when
    it is not empty and has no whitespace around it, is what a client created
    afterwards gets from [getAccessToken], whatever its credentials and
    whatever the servers do then: one console line, no network call. *)
Theorem returned_token_survives_restart env env' c w c' w' t id secret :
  run env ensureValidToken c w = (Ok t, c', w')
  \/ run env refreshToken c w = (Ok t, c', w') ->
  JS.trim t = t ->
  t <> EmptyString ->
  getAccessToken env' id secret w'
    = (Ok t, log (Logged "Access Token loaded from file") w')
  /\ token_posts (trace (snd (getAccessToken env' id secret w')))
     = token_posts (trace w').
Proof.
  intros H T NE.
  rewrite (restart_loads env env' c w (Ok t) c' w' t id secret H eq_refl T NE).
  split; reflexivity.
Qed.

Lemma returned_token_survives_restart_witness :
  getAccessToken (downEnv "x") None None
    (mkWorld (Some "new")
       [Logged "New access token obtained"; Wrote "new"; TokenPost "id" "secret";
        Unlinked; Logged "Token expired or invalid. Refreshing token..."])
    = (Ok "new",
       log (Logged "Access Token loaded from file")
         (mkWorld (Some "new")
            [Logged "New access token obtained"; Wrote "new";
             TokenPost "id" "secret"; Unlinked;
             Logged "Token expired or invalid. Refreshing token..."]))
  /\ token_posts
       (trace (snd (getAccessToken (downEnv "x") None None
                      (mkWorld (Some "new")
                         [Logged "New access token obtained"; Wrote "new";
                          TokenPost "id" "secret"; Unlinked;
                          Logged "Token expired or invalid. Refreshing token..."]))))
     = token_posts
         (trace (mkWorld (Some "new")
                   [Logged "New access token obtained"; Wrote "new";
                    TokenPost "id" "secret"; Unlinked;
                    Logged "Token expired or invalid. Refreshing token..."])).
Proof.
  apply (returned_token_survives_restart (grantEnv "new" "new") (downEnv "x")
           (setToken alice "old") (fileWorld "old") (setToken alice "new")).
  - right. reflexivity.
  - reflexivity.
  - discriminate.
Defined.

(** X6.  [ensureValidToken] never deletes the token file and never writes
    anything but a token it has just fetched: when it returns or throws, the
    file is as it was, or the call succeeded after exactly one POST and the
    file holds the token returned.  It posts at most once. *)
Theorem ensureValidToken_writes_only_what_it_fetched env c w :
  let '(r, c', w') := run env ensureValidToken c w in
  token_posts (trace w') <= S (token_posts (trace w))
  /\ (token_file w' = token_file w
      \/ exists t, r = Ok t /\ token_file w' = Some t
                   /\ token_posts (trace w') = S (token_posts (trace w))).
Proof.
  destruct (run env ensureValidToken c w) as [[r c'] w'] eqn:E.
  apply ensureValidToken_effects in E.
  destruct E as [(F & P & _) | (t & -> & F & P)].
  - split; [exact P | now left].
  - split; [lia | right; eauto].
Qed.

(** X7.  On the fetch path of [ensureValidToken] (a token in memory, or
    nothing usable in the file), when the authentication endpoint answers
    with a status that is not 2xx the call fails with the error carrying
    that status and its text after that single POST: no second attempt, and
    neither the client nor the file changes. *)
Theorem token_request_failure_is_final env c w id secret res :
  JS.truthy (accessToken c) = true \/ JS.truthy (stored_token w) = false ->
  credentials c = Some (id, secret) ->
  token_endpoint env (Logged "Fetching new access token..." :: trace w) id secret
    = Resolved res ->
  ok res = false ->
  run env ensureValidToken c w
    = (Err (TokenRequestFailed (status res) (statusText res)), c,
       mkWorld (token_file w)
         (TokenPost id secret :: Logged "Fetching new access token..." :: trace w))
  /\ message (TokenRequestFailed (status res) (statusText res))
     = Some ("Failed to retrieve access token: " ++ JS.numberToString (status res)
             ++ " " ++ statusText res).
Proof.
  intros P K G O. split; [| reflexivity].
  assert (N : run env fetchNewToken c w
              = (Err (TokenRequestFailed (status res) (statusText res)), c,
                 mkWorld (token_file w)
                   (TokenPost id secret :: Logged "Fetching new access token..."
                    :: trace w))).
  { rewrite run_fetchNewToken. cbv zeta. rewrite run_fetchAccessToken, K.
    simpl trace. rewrite G. simpl. now rewrite O. }
  rewrite run_ensureValidToken.
  destruct (JS.truthy (accessToken c)); [exact N |].
  destruct P as [P | P]; [discriminate |].
  destruct (stored_token w) as [[| a t] |]; try exact N. discriminate.
Qed.

Lemma token_request_failure_is_final_witness :
  run (downEnv "x") ensureValidToken alice (fileWorld " ")
    = (Err (TokenRequestFailed (status (@mkResponse string 503 "Service Unavailable" None))
              (statusText (@mkResponse string 503 "Service Unavailable" None))),
       alice,
       mkWorld (token_file (fileWorld " "))
         (TokenPost "id" "secret" :: Logged "Fetching new access token..."
          :: trace (fileWorld " ")))
  /\ message (TokenRequestFailed
                (status (@mkResponse string 503 "Service Unavailable" None))
                (statusText (@mkResponse string 503 "Service Unavailable" None)))
     = Some ("Failed to retrieve access token: "
             ++ JS.numberToString
                  (status (@mkResponse string 503 "Service Unavailable" None))
             ++ " " ++ statusText (@mkResponse string 503 "Service Unavailable" None)).
Proof.
  apply (token_request_failure_is_final (downEnv "x") alice (fileWorld " ")
           "id" "secret" (mkResponse 503 "Service Unavailable" None)).
  - right. reflexivity.
  - reflexivity.
  - reflexivity.
  - reflexivity.
Defined.

(** X8.  With nothing usable in the file (no file, an empty or a blank one),
    [getAccessToken] does check its arguments: when one of them is undefined
    or the empty string it throws the missing-credentials error without any
    network call and without touching the file. *)
Theorem getAccessToken_needs_credentials_without_cache env id secret w :
  JS.truthy (stored_token w) = false ->
  JS.truthy id = false \/ JS.truthy secret = false ->
  getAccessToken env id secret w
    = (Err MissingCredentials,
       mkWorld (token_file w) (Logged "Fetching new access token..." :: trace w)).
Proof.
  intros S K. unfold getAccessToken.
  assert (C : credentials (newClient id secret) = None).
  { unfold credentials. simpl.
    destruct id as [[| a i] |]; try reflexivity;
      destruct secret as [[| b s] |]; try reflexivity.
    destruct K as [K | K]; discriminate K. }
  rewrite run_ensureValidToken. simpl accessToken. simpl JS.truthy. cbv iota.
  rewrite (fetchNewToken_without_credentials env _ w C).
  destruct (stored_token w) as [[| a t] |]; try reflexivity. discriminate.
Qed.

Lemma getAccessToken_needs_credentials_without_cache_witness :
  getAccessToken (grantEnv "new" "new") (Some "id") (Some "") (fileWorld " ")
    = (Err MissingCredentials,
       mkWorld (token_file (fileWorld " "))
         (Logged "Fetching new access token..." :: trace (fileWorld " "))).
Proof.
  apply (getAccessToken_needs_credentials_without_cache (grantEnv "new" "new")
           (Some "id") (Some "") (fileWorld " ")).
  - reflexivity.
  - right. reflexivity.
Defined.

(** ** Query strings *)

Module QueryFacts.
Import URLSearchParams.

Lemma append_eq_self s t : (s ++ t)%string = s -> t = EmptyString.
Proof.
  induction s as [| c s IH]; simpl; intros H; [exact H |].
  injection H as H. auto.
Qed.

Lemma occurrences_app c s t :
  occurrences c (s ++ t) = occurrences c s + occurrences c t.
Proof. induction s as [| d s IH]; simpl; [reflexivity | rewrite IH; lia]. Qed.

Lemma encode_char_clean c d :
  separator c -> occurrences c (String.concat "" (map encodeByte (utf8 d))) = 0.
Proof.
  intros [-> | [-> | ->]];
    destruct d as [[] [] [] [] [] [] [] []]; reflexivity.
Qed.

Lemma encode_clean c s : separator c -> occurrences c (encode s) = 0.
Proof.
  intros H. induction s as [| d s IH]; simpl; [reflexivity |].
  now rewrite occurrences_app, IH, (encode_char_clean c d H).
Qed.

Lemma encodePair_count c p :
  separator c ->
  occurrences c (encodePair p) = if Ascii.eqb c "="%char then 1 else 0.
Proof.
  intros H. unfold encodePair.
  rewrite !occurrences_app, !(encode_clean c _ H). simpl.
  destruct (Ascii.eqb c "="); reflexivity.
Qed.

Lemma toString_cons p ps :
  toString (p :: ps)
  = match ps with
    | [] => encodePair p
    | _ :: _ => (encodePair p ++ "&" ++ toString ps)%string
    end.
Proof. unfold toString. simpl. destruct ps; reflexivity. Qed.

Lemma toString_count c ps :
  separator c ->
  occurrences c (toString ps)
  = if Ascii.eqb c "="%char then length ps
    else if Ascii.eqb c "&"%char then length ps - 1
    else 0.
Proof.
  intros H. induction ps as [| p ps IH]; [now destruct H as [-> | [-> | ->]] |].
  rewrite toString_cons. destruct ps as [| q ps].
  - rewrite (encodePair_count c p H).
    destruct H as [-> | [-> | ->]]; reflexivity.
  - rewrite !occurrences_app, IH, (encodePair_count c p H).
    destruct H as [-> | [-> | ->]]; simpl; lia.
Qed.

Lemma toString_empty ps : toString ps = EmptyString <-> ps = [].
Proof.
  split; [| now intros ->].
  destruct ps as [| p ps]; [reflexivity |]. intros H. exfalso.
  assert (E : occurrences "=" (toString (p :: ps)) = 0) by now rewrite H.
  rewrite (toString_count "=" (p :: ps)) in E by (right; right; reflexivity).
  discriminate E.
Qed.

End QueryFacts.

Section EndpointFacts.
Context {number : Type} (num : NumberOps number).
Import URLSearchParams.

Lemma appendEach_app ps name items :
  appendEach ps name items = (ps ++ map (fun item => (name, item)) items)%list.
Proof.
  unfold appendEach. revert ps.
  induction items as [| i items IH]; intros ps; simpl; [now rewrite app_nil_r |].
  rewrite IH. unfold append. now rewrite <- app_assoc.
Qed.

Lemma appendTime_app ps t : appendTime num ps t = (ps ++ appendTime num [] t)%list.
Proof.
  unfold appendTime. destruct t as [n |]; [| now rewrite app_nil_r].
  destruct (num_truthy num n); [reflexivity | now rewrite app_nil_r].
Qed.

Lemma appendIcao24_app ps i : appendIcao24 ps i = (ps ++ appendIcao24 [] i)%list.
Proof.
  unfold appendIcao24.
  destruct (truthyOneOrMany truthyString i); [| now rewrite app_nil_r].
  destruct i as [[s | items] |]; [reflexivity | | now rewrite app_nil_r].
  now rewrite !appendEach_app.
Qed.

Lemma appendDefined_app ps name x :
  appendDefined num ps name x = (ps ++ appendDefined num [] name x)%list.
Proof.
  unfold appendDefined. destruct x; [reflexivity | now rewrite app_nil_r].
Qed.

Lemma appendSerials_app ps x : appendSerials num ps x = (ps ++ appendSerials num [] x)%list.
Proof.
  unfold appendSerials.
  destruct (truthyOneOrMany (num_truthy num) x); [| now rewrite app_nil_r].
  destruct x as [[s | items] |]; [reflexivity | | now rewrite app_nil_r].
  now rewrite !appendEach_app.
Qed.

(** The parameters of [getAllStates], block by block. *)
Lemma getAllStates_params_blocks options :
  getAllStates_params num options
  = (appendTime num [] (optional options GetAllStatesOptions.time)
     ++ appendIcao24 [] (optional options GetAllStatesOptions.icao24)
     ++ appendDefined num [] "lamin" (optional options GetAllStatesOptions.lamin)
     ++ appendDefined num [] "lomin" (optional options GetAllStatesOptions.lomin)
     ++ appendDefined num [] "lamax" (optional options GetAllStatesOptions.lamax)
     ++ appendDefined num [] "lomax" (optional options GetAllStatesOptions.lomax)
     ++ match optional options GetAllStatesOptions.extended with
        | Some true => [("extended", "1")]
        | _ => []
        end)%list.
Proof.
  unfold getAllStates_params. cbv zeta.
  set (e := optional options GetAllStatesOptions.extended).
  rewrite (appendDefined_app _ "lomax"), (appendDefined_app _ "lamax"),
    (appendDefined_app _ "lomin"), (appendDefined_app _ "lamin"),
    (appendIcao24_app (appendTime _ _ _)).
  destruct e as [[|] |]; unfold append; rewrite <- ?app_assoc, ?app_nil_r;
    reflexivity.
Qed.

Lemma getOwnStates_params_blocks options :
  getOwnStates_params num options
  = (appendTime num [] (optional options GetOwnStatesOptions.time)
     ++ appendIcao24 [] (optional options GetOwnStatesOptions.icao24)
     ++ appendSerials num [] (optional options GetOwnStatesOptions.serials))%list.
Proof.
  unfold getOwnStates_params. cbv zeta.
  rewrite appendSerials_app, (appendIcao24_app (appendTime _ _ _)).
  now rewrite <- app_assoc.
Qed.

Lemma app_nil_iff {A} (l l' : list A) : (l ++ l')%list = [] <-> l = [] /\ l' = [].
Proof.
  split; [apply app_eq_nil | now intros [-> ->]].
Qed.

Lemma appendTime_nil t :
  appendTime num [] t = []
  <-> match t with Some n => num_truthy num n = false | None => True end.
Proof.
  unfold appendTime. destruct t as [n |]; [| tauto].
  destruct (num_truthy num n); simpl; split; intros H; try reflexivity;
    discriminate H.
Qed.

Lemma appendIcao24_nil i :
  appendIcao24 [] i = []
  <-> match i with
      | Some (One icao) => icao = EmptyString
      | Some (Many items) => items = []
      | None => True
      end.
Proof.
  unfold appendIcao24.
  destruct i as [[[| a s] | [| item l]] |]; simpl; try tauto;
    rewrite ?appendEach_app; simpl; split; intros H; discriminate H.
Qed.

Lemma appendDefined_nil name x : appendDefined num [] name x = [] <-> x = None.
Proof.
  unfold appendDefined. destruct x; simpl; split; intros H; try reflexivity;
    discriminate H.
Qed.

Lemma appendSerials_nil x :
  appendSerials num [] x = []
  <-> match x with
      | Some (One serial) => num_truthy num serial = false
      | Some (Many items) => items = []
      | None => True
      end.
Proof.
  unfold appendSerials.
  destruct x as [[n | [| n l]] |]; simpl; try tauto.
  - destruct (num_truthy num n); simpl; split; intros H; try reflexivity;
      discriminate H.
  - rewrite appendEach_app. simpl. split; intros H; discriminate H.
Qed.

Lemma withQuery_bare url ps : withQuery url ps = url <-> ps = [].
Proof.
  unfold withQuery. cbv zeta. split.
  - destruct (toString ps) as [| a q] eqn:E; simpl.
    + intros _. now apply QueryFacts.toString_empty.
    + intros H. apply QueryFacts.append_eq_self in H. discriminate H.
  - now intros ->.
Qed.

Lemma withQuery_count url ps c :
  separator c ->
  occurrences c url = 0 ->
  occurrences c (withQuery url ps)
  = if Ascii.eqb c "="%char then length ps
    else if Ascii.eqb c "&"%char then length ps - 1
    else match ps with [] => 0 | _ :: _ => 1 end.
Proof.
  intros H U. unfold withQuery. cbv zeta.
  pose proof (QueryFacts.toString_count c ps H) as T.
  pose proof (QueryFacts.toString_empty ps) as E.
  destruct (toString ps) as [| a q] eqn:Q.
  - assert (ps = []) as -> by now apply E.
    simpl. rewrite U. destruct H as [-> | [-> | ->]]; reflexivity.
  - assert (N : ps <> []) by (intros ->; discriminate Q).
    cbn [truthyString JS.truthy]. rewrite !QueryFacts.occurrences_app, U, T.
    destruct ps as [| p ps]; [congruence |].
    destruct H as [-> | [-> | ->]]; reflexivity.
Qed.

End EndpointFacts.

(** ** The endpoint methods *)

(** X10.  [getAllStates] requests the bare URL, without [?], exactly when no
    filter is effective: [time] absent or falsy (0 included), [icao24]
    absent, the empty string or the empty array, the four box coordinates
    absent, and [extended] absent or false.  A box coordinate that is
    defined is always sent, whatever its value. *)
Theorem getAllStates_bare_url {number} (num : NumberOps number)
  (options : option (GetAllStatesOptions.t number)) :
  getAllStates_url num options = "https://opensky-network.org/api/states/all"
  <->
  match optional options GetAllStatesOptions.time with
  | Some t => num_truthy num t = false
  | None => True
  end
  /\ match optional options GetAllStatesOptions.icao24 with
     | Some (One icao) => icao = EmptyString
     | Some (Many items) => items = []
     | None => True
     end
  /\ optional options GetAllStatesOptions.lamin = None
  /\ optional options GetAllStatesOptions.lomin = None
  /\ optional options GetAllStatesOptions.lamax = None
  /\ optional options GetAllStatesOptions.lomax = None
  /\ optional options GetAllStatesOptions.extended <> Some true.
Proof.
  unfold getAllStates_url. rewrite withQuery_bare, getAllStates_params_blocks.
  unfold URLSearchParams.t. rewrite !app_nil_iff, appendTime_nil, appendIcao24_nil, !appendDefined_nil.
  destruct (optional options GetAllStatesOptions.extended) as [[|] |];
    intuition (auto; discriminate).
Qed.

(** X11.  [getOwnStates] requests the bare URL exactly when [time] is absent
    or falsy, [icao24] is absent, the empty string or the empty array, and
    [serials] is absent, a falsy number (0 included) or the empty array. *)
Theorem getOwnStates_bare_url {number} (num : NumberOps number)
  (options : option (GetOwnStatesOptions.t number)) :
  getOwnStates_url num options = "https://opensky-network.org/api/states/own"
  <->
  match optional options GetOwnStatesOptions.time with
  | Some t => num_truthy num t = false
  | None => True
  end
  /\ match optional options GetOwnStatesOptions.icao24 with
     | Some (One icao) => icao = EmptyString
     | Some (Many items) => items = []
     | None => True
     end
  /\ match optional options GetOwnStatesOptions.serials with
     | Some (One serial) => num_truthy num serial = false
     | Some (Many items) => items = []
     | None => True
     end.
Proof.
  unfold getOwnStates_url. rewrite withQuery_bare, getOwnStates_params_blocks.
  unfold URLSearchParams.t. rewrite !app_nil_iff, appendTime_nil, appendIcao24_nil, appendSerials_nil.
  tauto.
Qed.

Lemma count_apart (c : ascii) (s t : string) :
  occurrences c s <> occurrences c t -> s <> t.
Proof. intros H E. apply H. now rewrite E. Qed.

(** X12.  In [getAllStates] and [getOwnStates] an [icao24] given as one
    string [s] and as the array [[s]] give the same URL exactly when [s] is
    not empty: the empty string is dropped, the array holding it is sent as
    [icao24=]. *)
Theorem icao24_one_or_many {number} (num : NumberOps number)
  (s : string) time lamin lomin lamax lomax extended serials :
  (getAllStates_url num
     (Some (GetAllStatesOptions.mk time (Some (One s)) lamin lomin lamax lomax extended))
   = getAllStates_url num
       (Some (GetAllStatesOptions.mk time (Some (Many [s])) lamin lomin lamax lomax
                extended))
   <-> s <> EmptyString)
  /\ (getOwnStates_url num (Some (GetOwnStatesOptions.mk time (Some (One s)) serials))
      = getOwnStates_url num (Some (GetOwnStatesOptions.mk time (Some (Many [s])) serials))
      <-> s <> EmptyString).
Proof.
  split; (split; [intros E N; subst s; revert E | intros N]).
  - apply (count_apart "="). unfold getAllStates_url.
    rewrite !withQuery_count by (try (right; right); reflexivity).
    rewrite !getAllStates_params_blocks. simpl optional.
    rewrite !length_app. simpl. lia.
  - destruct s as [| a s]; [now elim N | reflexivity].
  - apply (count_apart "="). unfold getOwnStates_url.
    rewrite !withQuery_count by (try (right; right); reflexivity).
    rewrite !getOwnStates_params_blocks. simpl optional.
    rewrite !length_app. simpl. lia.
  - destruct s as [| a s]; [now elim N | reflexivity].
Qed.

(** X13.  In [getOwnStates] a [serials] given as one number [n] and as the
    array [[n]] give the same URL exactly when [n] is truthy: the number 0 is
    dropped, the array holding it is sent. *)
Theorem serials_one_or_many {number} (num : NumberOps number)
  (n : number) time icao24 :
  getOwnStates_url num (Some (GetOwnStatesOptions.mk time icao24 (Some (One n))))
  = getOwnStates_url num (Some (GetOwnStatesOptions.mk time icao24 (Some (Many [n]))))
  <-> num_truthy num n = true.
Proof.
  split.
  - intros E. destruct (num_truthy num n) eqn:T; [reflexivity | exfalso].
    revert E. apply (count_apart "="). unfold getOwnStates_url.
    rewrite !withQuery_count by (try (right; right); reflexivity).
    rewrite !getOwnStates_params_blocks. simpl optional.
    rewrite !length_app. unfold appendSerials. simpl. rewrite T. simpl. lia.
  - intros T. unfold getOwnStates_url, getOwnStates_params, appendSerials.
    simpl. now rewrite T.
Qed.

(** X14.  However the filter values of [getAllStates] and [getOwnStates]
    look ([?], [&] and [=] included), the URL has one [=] for each parameter
    sent, [&] only between two parameters, and one [?] when there is a
    parameter and none otherwise. *)
Theorem states_query_is_well_formed {number} (num : NumberOps number)
  (all : option (GetAllStatesOptions.t number))
  (own : option (GetOwnStatesOptions.t number)) :
  let n := length (getAllStates_params num all) in
  let m := length (getOwnStates_params num own) in
  occurrences "=" (getAllStates_url num all) = n
  /\ occurrences "&" (getAllStates_url num all) = n - 1
  /\ occurrences "?" (getAllStates_url num all) = Nat.min n 1
  /\ occurrences "=" (getOwnStates_url num own) = m
  /\ occurrences "&" (getOwnStates_url num own) = m - 1
  /\ occurrences "?" (getOwnStates_url num own) = Nat.min m 1.
Proof.
  cbv zeta. unfold getAllStates_url, getOwnStates_url.
  rewrite !withQuery_count
    by first [reflexivity | left; reflexivity | right; left; reflexivity
             | right; right; reflexivity].
  simpl Ascii.eqb. cbv iota.
  destruct (getAllStates_params num all); destruct (getOwnStates_params num own);
    simpl; repeat split; lia.
Qed.

Lemma prefix_app (p r : string) : String.prefix p (p ++ r) = true.
Proof.
  induction p as [| a p IH]; simpl; [now destruct r |].
  destruct (ascii_dec a a) as [_ | N]; [exact IH | now elim N].
Qed.

Lemma string_app_assoc (s t u : string) : ((s ++ t) ++ u)%string = (s ++ t ++ u)%string.
Proof. induction s as [| a s IH]; simpl; [reflexivity | now rewrite IH]. Qed.

Lemma withQuery_prefix (p rest : string) ps :
  String.prefix p (withQuery (p ++ rest) ps) = true.
Proof.
  unfold withQuery. cbv zeta.
  destruct (truthyString _); [| apply prefix_app].
  rewrite string_app_assoc. apply prefix_app.
Qed.

(** X15.  Whatever their arguments and whatever the servers answer, the seven
    endpoint methods send their GETs, and so the bearer token, only to URLs
    that start with [https://opensky-network.org/api/]. *)
Theorem endpoints_request_only_the_api {number} (num : NumberOps number)
  env (p : Prog Json) c w :
  (exists airport begin end_, p = getArrivalsByAirport airport begin end_)
  \/ (exists airport begin end_, p = getDeparturesByAirport airport begin end_)
  \/ (exists options, p = getAllStates num options)
  \/ (exists options, p = getOwnStates num options)
  \/ (exists begin end_, p = getFlightsInInterval num begin end_)
  \/ (exists icao24 begin end_, p = getFlightsByAircraft num icao24 begin end_)
  \/ (exists icao24 time, p = getTrackByAircraft num icao24 time) ->
  exists gets,
    resource_gets (trace (snd (run env p c w)))
      = (gets ++ resource_gets (trace w))%list
    /\ Forall (fun g => String.prefix "https://opensky-network.org/api/" (fst g) = true)
         gets.
Proof.
  assert (K : forall url,
             String.prefix "https://opensky-network.org/api/" url = true ->
             exists gets,
               resource_gets (trace (snd (run env (makeAuthenticatedRequest url) c w)))
                 = (gets ++ resource_gets (trace w))%list
               /\ Forall (fun g => String.prefix "https://opensky-network.org/api/"
                                      (fst g) = true) gets).
  { intros url P.
    destruct (makeAuthenticatedRequest_traffic env url c w) as (gets & G & _ & F & _).
    exists gets. split; [exact G |].
    eapply Forall_impl; [| exact F]. intros g ->. exact P. }
  intros [(a & b & e & ->) | [(a & b & e & ->) | [(o & ->) | [(o & ->)
          | [(b & e & ->) | [(i & b & e & ->) | (i & t & ->)]]]]]]; apply K.
  - exact (prefix_app "https://opensky-network.org/api/"
             ("flights/arrival?airport=" ++ a ++ "&begin=" ++ b ++ "&end=" ++ e)).
  - exact (prefix_app "https://opensky-network.org/api/"
             ("flights/departure?airport=" ++ a ++ "&begin=" ++ b ++ "&end=" ++ e)).
  - exact (withQuery_prefix "https://opensky-network.org/api/" "states/all" _).
  - exact (withQuery_prefix "https://opensky-network.org/api/" "states/own" _).
  - exact (prefix_app "https://opensky-network.org/api/"
             ("flights/all?begin=" ++ num_toString num b ++ "&end="
              ++ num_toString num e)).
  - exact (prefix_app "https://opensky-network.org/api/"
             ("flights/aircraft?icao24=" ++ i ++ "&begin="
              ++ num_toString num b ++ "&end=" ++ num_toString num e)).
  - exact (prefix_app "https://opensky-network.org/api/"
             ("tracks?icao24=" ++ i ++ "&time="
              ++ num_toString num
                   (match t with Some t' => t' | None => num_zero num end))).
Qed.

Lemma endpoints_request_only_the_api_witness :
  exists gets,
    resource_gets
      (trace (snd (run (grantEnv "new" "new")
                     (getFlightsInInterval integerOps 1700000000%N 1700003600%N)
                     alice (fileWorld "old"))))
      = (gets ++ resource_gets (trace (fileWorld "old")))%list
    /\ Forall (fun g => String.prefix "https://opensky-network.org/api/" (fst g) = true)
         gets.
Proof.
  apply (endpoints_request_only_the_api integerOps (grantEnv "new" "new")
           (getFlightsInInterval integerOps 1700000000%N 1700003600%N)
           alice (fileWorld "old")).
  do 4 right. left. exists 1700000000%N, 1700003600%N. reflexivity.
Defined.

(** ** The legacy functions *)

Lemma legacyFetch_agrees env failed url c w tok c1 w1 res :
  run env ensureValidToken c w = (Ok tok, c1, w1) ->
  resource_endpoint env (trace w1) url tok = Resolved res ->
  status res <> 401%N ->
  snd (legacyFetch env failed url tok w1)
    = snd (run env (makeAuthenticatedRequest url) c w)
  /\ fst (legacyFetch env failed url tok w1)
     = match fst (fst (run env (makeAuthenticatedRequest url) c w)) with
       | Ok data => inr data
       | Err (ApiRequestFailed s) => inl (failed s)
       | Err e => inl (Uncaught e)
       end.
Proof.
  intros E G S.
  rewrite (run_makeAuthenticatedRequest env url c w tok c1 w1 E). cbv zeta.
  unfold legacyFetch. rewrite G.
  apply N.eqb_neq in S. rewrite S.
  destruct (ok res); simpl; [| split; reflexivity].
  destruct (json res); split; reflexivity.
Qed.

(** X16.  Once [ensureValidToken] has given the token, and unless the answer
    is a 401, the methods [getArrivalsByAirport] and [getDeparturesByAirport]
    do what the legacy functions [getArrivalByAirport] and
    [getDepartureByAirport] do with that token: the same single GET to the
    same URL, the same body on success, and on a status that is not 2xx the
    error that carries the same status, under the legacy message. *)
Theorem legacy_functions_agree_with_methods env airport begin end_ c w tok c1 w1
  resA resD :
  run env ensureValidToken c w = (Ok tok, c1, w1) ->
  resource_endpoint env (trace w1) (getArrivalsByAirport_url airport begin end_) tok
    = Resolved resA ->
  status resA <> 401%N ->
  resource_endpoint env (trace w1) (getDeparturesByAirport_url airport begin end_) tok
    = Resolved resD ->
  status resD <> 401%N ->
  (snd (getArrivalByAirport env airport begin end_ tok w1)
     = snd (run env (getArrivalsByAirport airport begin end_) c w)
   /\ fst (getArrivalByAirport env airport begin end_ tok w1)
      = match fst (fst (run env (getArrivalsByAirport airport begin end_) c w)) with
        | Ok data => inr data
        | Err (ApiRequestFailed s) => inl (ArrivalFailed s)
        | Err e => inl (Uncaught e)
        end)
  /\ (snd (getDepartureByAirport env airport begin end_ (Some tok) w1)
        = snd (run env (getDeparturesByAirport airport begin end_) c w)
      /\ fst (getDepartureByAirport env airport begin end_ (Some tok) w1)
         = match fst (fst (run env (getDeparturesByAirport airport begin end_) c w)) with
           | Ok data => inr data
           | Err (ApiRequestFailed s) => inl (DepartureFailed s)
           | Err e => inl (Uncaught e)
           end).
Proof.
  intros E GA SA GD SD. split.
  - exact (legacyFetch_agrees env ArrivalFailed _ c w tok c1 w1 resA E GA SA).
  - exact (legacyFetch_agrees env DepartureFailed _ c w tok c1 w1 resD E GD SD).
Qed.

Lemma legacy_functions_agree_with_methods_witness :
  (snd (getArrivalByAirport (statusEnv "new" 404) "EDDF" "1" "2" "tok"
          (log (Logged "Access Token loaded from file") (fileWorld "tok")))
     = snd (run (statusEnv "new" 404) (getArrivalsByAirport "EDDF" "1" "2")
              anonymous (fileWorld "tok"))
   /\ fst (getArrivalByAirport (statusEnv "new" 404) "EDDF" "1" "2" "tok"
             (log (Logged "Access Token loaded from file") (fileWorld "tok")))
      = match fst (fst (run (statusEnv "new" 404)
                          (getArrivalsByAirport "EDDF" "1" "2")
                          anonymous (fileWorld "tok"))) with
        | Ok data => inr data
        | Err (ApiRequestFailed s) => inl (ArrivalFailed s)
        | Err e => inl (Uncaught e)
        end)
  /\ (snd (getDepartureByAirport (statusEnv "new" 404) "EDDF" "1" "2" (Some "tok")
             (log (Logged "Access Token loaded from file") (fileWorld "tok")))
        = snd (run (statusEnv "new" 404) (getDeparturesByAirport "EDDF" "1" "2")
                 anonymous (fileWorld "tok"))
      /\ fst (getDepartureByAirport (statusEnv "new" 404) "EDDF" "1" "2" (Some "tok")
                (log (Logged "Access Token loaded from file") (fileWorld "tok")))
         = match fst (fst (run (statusEnv "new" 404)
                             (getDeparturesByAirport "EDDF" "1" "2")
                             anonymous (fileWorld "tok"))) with
           | Ok data => inr data
           | Err (ApiRequestFailed s) => inl (DepartureFailed s)
           | Err e => inl (Uncaught e)
           end).
Proof.
  apply (legacy_functions_agree_with_methods (statusEnv "new" 404) "EDDF" "1" "2"
           anonymous (fileWorld "tok") "tok" (setToken anonymous "tok")
           (log (Logged "Access Token loaded from file") (fileWorld "tok"))
           (mkResponse 404 "" None) (mkResponse 404 "" None)).
  - reflexivity.
  - reflexivity.
  - discriminate.
  - reflexivity.
  - discriminate.
Defined.

(** ** Errors *)

(** X17.  [loadTokenFromFile] and [clearTokenFile] never throw, with or
    without the file: [existsSync] guards [statSync], [readFileSync] and
    [unlinkSync].  Loading changes nothing and returns a string that is
    already trimmed, taken from a file that is not empty; after clearing
    there is no file. *)
Theorem file_helpers_never_throw env c w :
  (exists r,
      run env loadTokenFromFile c w = (Ok r, c, w)
      /\ forall t, r = Some t ->
           JS.trim t = t
           /\ exists s, token_file w = Some s /\ s <> EmptyString /\ t = JS.trim s)
  /\ (exists w',
         run env clearTokenFile c w = (Ok tt, c, w') /\ token_file w' = None
         /\ token_posts (trace w') = token_posts (trace w)
         /\ file_writes (trace w') = file_writes (trace w)).
Proof.
  split.
  - exists (stored_token w). split; [apply run_loadTokenFromFile |].
    unfold stored_token. intros t H.
    destruct (token_file w) as [s |]; [| discriminate H].
    rewrite JSFacts.byteLength_pos in H.
    destruct s as [| a s]; [discriminate H |]. injection H as <-.
    split; [apply JSFacts.trim_idem |].
    exists (String a s). repeat split. discriminate.
  - exists (cleared w). split; [apply run_clearTokenFile |].
    split; [apply token_file_cleared |].
    unfold cleared. destruct (token_file w); split; reflexivity.
Qed.

Section Taxonomy.
Variable env : Env.

Lemma not_ok_status {B} (res : Response B) :
  ok res = false -> ~ (200 <= status res <= 299)%N.
Proof.
  unfold ok. intros H [L U].
  apply N.leb_le in L, U. now rewrite L, U in H.
Qed.

Lemma fetchAccessToken_errors c w e c' w' :
  run env fetchAccessToken c w = (Err e, c', w') -> token_error e.
Proof.
  rewrite run_fetchAccessToken.
  destruct (credentials c) as [[id secret] |];
    [| intros H; injection H as <- _ _; exact I].
  unfold granted.
  destruct (token_endpoint env (trace w) id secret) as [| res];
    [intros H; injection H as <- _ _; exact I |].
  destruct (ok res) eqn:O.
  - destruct (json res); intros H; [discriminate H | injection H as <- _ _; exact I].
  - intros H. injection H as <- _ _. simpl. now apply not_ok_status.
Qed.

Lemma fetchNewToken_errors c w e c' w' :
  run env fetchNewToken c w = (Err e, c', w') -> token_error e.
Proof.
  rewrite run_fetchNewToken. cbv zeta.
  destruct (run env fetchAccessToken c _) as [[[t | e0] c1] w1] eqn:F.
  - destruct (stored _ _ c1 w1). discriminate.
  - intros H. injection H as <- _ _. eapply fetchAccessToken_errors, F.
Qed.

Lemma ensureValidToken_errors c w e c' w' :
  run env ensureValidToken c w = (Err e, c', w') -> token_error e.
Proof.
  rewrite run_ensureValidToken.
  destruct (JS.truthy (accessToken c)); [apply fetchNewToken_errors |].
  destruct (stored_token w) as [[| a t] |];
    try apply fetchNewToken_errors. discriminate.
Qed.

Lemma refreshToken_errors c w e c' w' :
  run env refreshToken c w = (Err e, c', w') -> token_error e.
Proof.
  rewrite run_refreshToken. cbv zeta.
  destruct (run env fetchAccessToken c _) as [[[t | e0] c1] w1] eqn:F.
  - destruct (stored _ _ c1 w1). discriminate.
  - intros H. injection H as <- _ _. eapply fetchAccessToken_errors, F.
Qed.

End Taxonomy.

(** X18.  An error of [makeAuthenticatedRequest] that carries a status never
    carries a 2xx one, and the plain request error never carries 401, which
    leads to the refresh instead; the guarded file operations never make the
    call fail for a missing file. *)
Theorem status_errors_carry_failing_statuses env url c w e c' w' :
  run env (makeAuthenticatedRequest url) c w = (Err e, c', w') ->
  match e with
  | TokenRequestFailed s _ => ~ (200 <= s <= 299)%N
  | ApiRequestFailed s => ~ (200 <= s <= 299)%N /\ s <> 401%N
  | ApiRequestFailedAfterRefresh s => ~ (200 <= s <= 299)%N
  | ENOENT => False
  | _ => True
  end.
Proof.
  assert (T : forall e0, token_error e0 ->
              match e0 with
              | TokenRequestFailed s _ => ~ (200 <= s <= 299)%N
              | ApiRequestFailed s => ~ (200 <= s <= 299)%N /\ s <> 401%N
              | ApiRequestFailedAfterRefresh s => ~ (200 <= s <= 299)%N
              | ENOENT => False
              | _ => True
              end).
  { intros [] H; simpl in H; auto; contradiction. }
  destruct (run env ensureValidToken c w) as [[[tok | e0] c1] w1] eqn:E.
  - rewrite (run_makeAuthenticatedRequest env url c w tok c1 w1 E). cbv zeta.
    destruct (resource_endpoint env (trace w1) url tok) as [| res];
      [intros H; injection H as <- _ _; exact I |].
    destruct (status res =? 401)%N eqn:S.
    + destruct (run env refreshToken c1 _) as [[[tok' | e1] c2] w2] eqn:R.
      * destruct (resource_endpoint env (trace w2) url tok') as [| res'];
          [intros H; injection H as <- _ _; exact I |].
        destruct (ok res') eqn:O.
        -- destruct (json res'); intros H; [discriminate H |].
           injection H as <- _ _. exact I.
        -- intros H. injection H as <- _ _. now apply not_ok_status.
      * intros H. injection H as <- _ _. apply T. eapply refreshToken_errors, R.
    + destruct (ok res) eqn:O.
      * destruct (json res); intros H; [discriminate H |].
        injection H as <- _ _. exact I.
      * intros H. injection H as <- _ _.
        split; [now apply not_ok_status | now apply N.eqb_neq].
  - rewrite (makeAuthenticatedRequest_without_token env url c w e0 c1 w1 E).
    intros H. injection H as <- _ _. apply T. eapply ensureValidToken_errors, E.
Qed.

Lemma status_errors_carry_failing_statuses_witness :
  ~ (200 <= 404 <= 299)%N /\ 404%N <> 401%N.
Proof.
  exact (status_errors_carry_failing_statuses (statusEnv "new" 404) "/api/tracks"
           alice (fileWorld "tok") (ApiRequestFailed 404) _ _ eq_refl).
Defined.

Module MessageFacts.

Lemma NilEmpty_no_space d : occurrences " " (NilEmpty.string_of_uint d) = 0.
Proof. induction d; simpl; auto. Qed.

Lemma numberToString_no_space n : occurrences " " (JS.numberToString n) = 0.
Proof.
  unfold JS.numberToString, NilZero.string_of_uint.
  destruct (N.to_uint n); try apply NilEmpty_no_space. reflexivity.
Qed.

Lemma numberToString_inj a b : JS.numberToString a = JS.numberToString b -> a = b.
Proof.
  unfold JS.numberToString. intros H.
  assert (NN : forall n, N.to_uint n <> Decimal.Nil).
  { intros [| p]; [discriminate | apply DecimalPos.Unsigned.to_uint_nonnil]. }
  apply DecimalN.Unsigned.to_uint_inj.
  pose proof (NilZero.usu _ (NN a)) as Ha. pose proof (NilZero.usu _ (NN b)) as Hb.
  rewrite H in Ha. congruence.
Qed.

(** A number, a space and a text: the first space ends the number. *)
Lemma split_at_space d1 d2 t1 t2 :
  occurrences " " d1 = 0 -> occurrences " " d2 = 0 ->
  (d1 ++ " " ++ t1)%string = (d2 ++ " " ++ t2)%string -> d1 = d2 /\ t1 = t2.
Proof.
  revert d2. induction d1 as [| a d1 IH]; intros [| b d2];
    cbn [occurrences append]; intros H1 H2 E.
  - injection E as E. auto.
  - injection E as <- _. discriminate H2.
  - injection E as -> _. discriminate H1.
  - injection E as <- E. revert H1 H2.
    destruct (Ascii.eqb " " a); simpl; intros H1 H2; [discriminate H1 |].
    destruct (IH d2 H1 H2 E) as [-> ->]. auto.
Qed.

End MessageFacts.

(** X19.  The message of an error of the client tells which error it is: two
    errors with the same message are the same error, with the same status
    (and, for the token error, the same status text). *)
Theorem message_identifies_the_error e1 e2 m :
  message e1 = Some m -> message e2 = Some m -> e1 = e2.
Proof.
  intros H1 H2.
  destruct e1 as [| s1 t1 | s1 | s1 | | |], e2 as [| s2 t2 | s2 | s2 | | |];
    unfold message in H1, H2; try discriminate H1; try discriminate H2;
    rewrite <- H2 in H1; clear H2; cbn [append] in H1;
    try discriminate H1; try reflexivity;
    injection H1 as H1.
  - apply MessageFacts.split_at_space in H1;
      try apply MessageFacts.numberToString_no_space.
    destruct H1 as [H1 ->]. apply MessageFacts.numberToString_inj in H1. now subst.
  - apply MessageFacts.numberToString_inj in H1. now subst.
  - apply MessageFacts.numberToString_inj in H1. now subst.
Qed.

Lemma message_identifies_the_error_witness :
  ApiRequestFailed 404 = ApiRequestFailed 404.
Proof.
  apply (message_identifies_the_error (ApiRequestFailed 404) (ApiRequestFailed 404)
           "API request failed: 404").
  - reflexivity.
  - reflexivity.
Defined.

(** ** Stopping anywhere *)

Lemma steps_throughout env (Q : World -> Prop) {A} n :
  forall (p : Prog A) c w,
    throughout env Q p c w -> Q (snd (steps env n (p, c, w))).
Proof.
  induction n as [| n IH]; intros p c w H.
  - destruct p; simpl in *; tauto.
  - destruct p as [a | e | X op k].
    + rewrite steps_Ret. simpl in *. tauto.
    + rewrite steps_Throw. simpl in *. tauto.
    + simpl in *. destruct H as [_ H].
      destruct (handle env op c w) as [[[x | e] c'] w'].
      * apply IH, H.
      * rewrite steps_Throw. exact H.
Qed.

#[local] Arguments JS.byteLength : simpl never.
#[local] Arguments JS.trim : simpl never.
#[local] Arguments N.ltb : simpl never.

Ltac leaf :=
  first [ left; reflexivity
        | right; do 4 eexists; repeat split; (reflexivity || eassumption) ].

Ltac explore :=
  simpl;
  repeat (match goal with
          | |- _ /\ _ => split
          | |- True => exact I
          | |- _ \/ _ => solve [leaf]
          | |- context [match ?x with _ => _ end] => is_var x; destruct x
          | |- context [JS.truthy ?x] => is_var x; destruct x as [[| ? ?] |]
          | |- context [token_endpoint ?e ?tr ?i ?s] =>
              destruct (token_endpoint e tr i s) eqn:?
          | |- context [ok ?r] => destruct (ok r) eqn:?
          | |- context [json ?r] => destruct (json r) eqn:?
          | |- context [(0 <? JS.byteLength ?s)%N] =>
              destruct (0 <? JS.byteLength s)%N eqn:?
          | |- context [JS.trim ?s] => destruct (JS.trim s) eqn:?
          end; simpl).

(** X9.  [ensureValidToken], one operation at a time: wherever it stops, the
    token file is as it was before the call, or it holds the token that the
    authentication endpoint has just granted.  Unlike [refreshToken] it has
    no point at which the cached token is gone. *)
Theorem ensureValidToken_never_loses_the_file env c w n :
  let w' := snd (steps env n (ensureValidToken, c, w)) in
  token_file w' = token_file w
  \/ exists t id secret res,
      token_file w' = Some t
      /\ credentials c = Some (id, secret)
      /\ token_endpoint env (Logged "Fetching new access token..." :: trace w)
           id secret = Resolved res
      /\ ok res = true /\ json res = Some t.
Proof.
  cbv zeta.
  apply (steps_throughout env
           (fun w' => token_file w' = token_file w
                      \/ exists t id secret res,
                          token_file w' = Some t
                          /\ credentials c = Some (id, secret)
                          /\ token_endpoint env
                               (Logged "Fetching new access token..." :: trace w)
                               id secret = Resolved res
                          /\ ok res = true /\ json res = Some t)).
  unfold ensureValidToken, fetchNewToken, loadTokenFromFile, fetchAccessToken,
    json_of, await.
  destruct c as [i s m]; destruct w as [f tr]. explore.
Qed.
